(** * NTS-KE (package ntske): records, packing, the decode loop, key export

    A shallow embedding of [net/ntske/ntske.go].  Unsigned 16-bit values
    are integers in [Z] with the wrap-around written out, wire bytes are
    [Byte.byte], Go's [error] values are the constructors of [error], and
    the [*bufio.Reader] the decode loop reads from is an explicit state
    that is threaded through the loop. *)

From Stdlib Require Import ZArith NArith String Ascii Bool Lia List.
From Stdlib.Strings Require Import Byte.
Import ListNotations.

Local Open Scope Z_scope.

(** ** Bytes and 16-bit words *)

Definition uint16 := Z.

(** The conversion [uint16(x)] of Go. *)
Definition to_uint16 (x : Z) : uint16 := x mod 65536.

(** The conversion [byte(x)] of Go. *)
Definition byte_of_Z (x : Z) : byte :=
  match Byte.of_N (Z.to_N (x mod 256)) with
  | Some b => b
  | None => x00
  end.

Definition Z_of_byte (b : byte) : Z := Z.of_N (Byte.to_N b).

(** [binary.BigEndian.PutUint16] and [binary.BigEndian.Uint16]. *)
Definition PutUint16 (v : uint16) : list byte :=
  [byte_of_Z (Z.shiftr v 8); byte_of_Z v].

Definition Uint16 (b : list byte) : uint16 :=
  match b with
  | b0 :: b1 :: _ => Z.lor (Z_of_byte b1) (Z.shiftl (Z_of_byte b0) 8)
  | _ => 0
  end.

(** ** Errors *)

(** The error values the package can return: the two sentinels of
    package [io] that [io.ReadFull] hands back, the package's own
    [errors.New("buffer overrun")], its
    [fmt.Errorf("unknown record type %v with critical bit set", t)],
    and any other error, carried by its message. *)
Inductive error : Type :=
| EOF
| ErrUnexpectedEOF
| ErrBufferOverrun
| ErrUnknownRecord (t : uint16)
| ErrOther (msg : string).

(** The error kinds of the design document, read on the errors of the
    code: a read that comes up short is reported as one of [io.EOF],
    [io.ErrUnexpectedEOF] and "buffer overrun"; an unrecognised critical
    record as [ErrUnknownRecord]. *)
Definition TruncatedStream (e : error) : bool :=
  match e with
  | EOF | ErrUnexpectedEOF | ErrBufferOverrun => true
  | _ => false
  end.

Definition UnsupportedCriticalRecord (e : error) : option uint16 :=
  match e with
  | ErrUnknownRecord t => Some t
  | _ => None
  end.

(** ** Negotiated data and record types *)

(** A Go slice that may be [nil] is an [option]. *)
Record Data := mkData {
  C2sKey : option (list byte);
  S2cKey : option (list byte);
  Server : string;
  Port : uint16;
  Cookie : list (list byte);
  Algo : uint16
}.

Definition RecEom : uint16 := 0.
Definition RecNextproto : uint16 := 1.
Definition RecError : uint16 := 2.
Definition RecWarning : uint16 := 3.
Definition RecAead : uint16 := 4.
Definition RecCookie : uint16 := 5.
Definition RecServer : uint16 := 6.
Definition RecPort : uint16 := 7.

Definition AES_SIV_CMAC_256 : Z := 0x0f.
Definition DEFAULT_NTSKE_PORT : Z := 4460.
Definition DEFAULT_NTP_PORT : Z := 123.

Definition alpn : string := "ntske/1".

Definition NTPv4 : uint16 := 0.

Record RecordHdr := mkHdr {
  Type_ : uint16;
  BodyLen : uint16
}.

Definition setBit (n : uint16) (pos : Z) : uint16 :=
  Z.lor n (to_uint16 (Z.shiftl 1 pos)).

Definition hasBit (n : uint16) (pos : Z) : bool :=
  Z.land n (to_uint16 (Z.shiftl 1 pos)) >? 0.

(** ** Packing *)

(** A [bytes.Buffer] that is only appended to. *)
Definition Buffer := list byte.

(** The values [binary.Write] is given in this package. *)
Inductive value : Type :=
| VUint16 (v : uint16)
| VBytes (bs : list byte)
| VUint16s (vs : list uint16)
| VHdr (h : RecordHdr).

Definition encode (v : value) : list byte :=
  match v with
  | VUint16 x => PutUint16 x
  | VBytes bs => bs
  | VUint16s xs => flat_map PutUint16 xs
  | VHdr h => PutUint16 (Type_ h) ++ PutUint16 (BodyLen h)
  end.

(** [binary.Write(buf, binary.BigEndian, v)]: for the four shapes above
    it never fails. *)
Definition binary_Write (buf : Buffer) (v : value) : error + Buffer :=
  inr (buf ++ encode v).

(** [if err != nil { return err }] after each call. *)
Definition bind {A B : Type} (m : error + A) (k : A -> error + B)
  : error + B :=
  match m with
  | inl e => inl e
  | inr a => k a
  end.

Notation "x <- m ;; k" := (bind m (fun x => k))
  (at level 61, m at next level, right associativity).

Definition RecordHdr_pack (h : RecordHdr) (buf : Buffer) : error + Buffer :=
  binary_Write buf (VHdr h).

Definition packheader (t : uint16) (c : bool) (buf : Buffer) (bodylen : Z)
  : error + Buffer :=
  let hdr := mkHdr 0 0 in
  let hdr := mkHdr t (BodyLen hdr) in
  let hdr := if c then mkHdr (setBit (Type_ hdr) 15) (BodyLen hdr) else hdr in
  let hdr := mkHdr (Type_ hdr) (to_uint16 bodylen) in
  RecordHdr_pack hdr buf.

Definition packsimple (t : uint16) (c : bool) (v : value) (buf : Buffer)
  : error + Buffer :=
  value <- binary_Write [] v ;;
  buf <- packheader t c buf (Z.of_nat (length value)) ;;
  inr (buf ++ value).

(** The record types that implement [Record]; the embedded [RecordHdr]
    of each is overwritten by [pack] and is left out. *)
Inductive Record_ : Type :=
| NextProto (nextProto : uint16)
| End_
| Server_ (addr : list byte) (critical : bool)
| Port_ (port : uint16) (critical : bool)
| Cookie_ (cookie : list byte)
| Warning (code : uint16)
| Error (code : uint16)
| Algorithm (algo : list uint16).

Definition NextProto_pack (n : uint16) (buf : Buffer) : error + Buffer :=
  value <- binary_Write [] (VUint16 n) ;;
  let hdr := mkHdr RecNextproto 0 in
  let hdr := mkHdr (setBit (Type_ hdr) 15) (BodyLen hdr) in
  let hdr := mkHdr (Type_ hdr) (to_uint16 (Z.of_nat (length value))) in
  buf <- RecordHdr_pack hdr buf ;;
  inr (buf ++ value).

Definition pack (r : Record_) (buf : Buffer) : error + Buffer :=
  match r with
  | NextProto n => NextProto_pack n buf
  | End_ => packheader RecEom true buf 0
  | Server_ addr c => packsimple RecServer c (VBytes addr) buf
  | Port_ p c => packsimple RecPort c (VUint16 p) buf
  | Cookie_ c => packsimple RecCookie false (VBytes c) buf
  | Warning code => packsimple RecWarning true (VUint16 code) buf
  | Error code => packsimple RecError true (VUint16 code) buf
  | Algorithm a => packsimple RecAead true (VUint16s a) buf
  end.

(** [ExchangeMsg.Pack]: the records are packed in list order into a
    fresh buffer. *)
Fixpoint Pack_loop (rs : list Record_) (buf : Buffer) : error + Buffer :=
  match rs with
  | [] => inr buf
  | r :: rs' => buf <- pack r buf ;; Pack_loop rs' buf
  end.

Definition Pack (m : list Record_) : error + Buffer := Pack_loop m [].

Definition AddRecord (m : list Record_) (rec : Record_) : list Record_ :=
  m ++ [rec].

(** The message [ExchangeTCP] sends. *)
Definition ExchangeTCP_msg : list Record_ :=
  let msg := [] in
  let msg := AddRecord msg (NextProto NTPv4) in
  let msg := AddRecord msg (Algorithm [AES_SIV_CMAC_256]) in
  AddRecord msg End_.

(** ** The reader

    [Read] is handed a [*bufio.Reader] over the TLS connection.  The
    connection is modelled by what it will deliver: each element of [rd]
    is what one [Read] call on the connection returns at most (a TLS
    record, a TCP segment), and after the last one the connection
    reports [io.EOF].  [buffered] is the unread part [buf[r:w]] of
    bufio's buffer.  The connection reports an error only together with
    zero bytes, so the field [err] of [bufio.Reader] is always [nil]
    between two calls and is left out. *)
Record Reader := mkReader {
  buffered : list byte;
  rd : list (list byte)
}.

(** [defaultBufSize] of package [bufio]. *)
Definition defaultBufSize : nat := Z.to_nat 4096.

Definition NewReader (conn : list (list byte)) : Reader := mkReader [] conn.

(** The bytes the reader has not handed out yet. *)
Definition remaining (b : Reader) : list byte := buffered b ++ concat (rd b).

(** One [Read(p)] on the connection, [n = len(p)]. *)
Definition rd_Read (n : nat) (src : list (list byte))
  : list byte * option error * list (list byte) :=
  match src with
  | [] => ([], Some EOF, [])
  | c :: rest =>
      (firstn n c, None,
       match skipn n c with
       | [] => rest
       | _ :: _ => skipn n c :: rest
       end)
  end.

(** [Read(p)] of [bufio.Reader], with [n = len(p)]: the bytes copied into
    the front of [p], the error, the reader afterwards.  It returns what
    is buffered, or else the result of a single [Read] on the connection,
    which may be fewer than [n] bytes. *)
Definition Reader_Read (n : nat) (b : Reader)
  : list byte * option error * Reader :=
  match n with
  | O => ([], None, b)
  | S _ =>
      match buffered b with
      | [] =>
          if (defaultBufSize <=? n)%nat then
            let '(p, err, src) := rd_Read n (rd b) in
            (p, err, mkReader [] src)
          else
            let '(got, err, src) := rd_Read defaultBufSize (rd b) in
            match got with
            | [] => ([], err, mkReader [] src)
            | _ => (firstn n got, None, mkReader (skipn n got) src)
            end
      | _ :: _ =>
          (firstn n (buffered b), None, mkReader (skipn n (buffered b)) (rd b))
      end
  end.

(** The loop of [io.ReadAtLeast]: [Read] is called until [min] bytes
    are there or an error comes back.  [None] is the model running out
    of fuel. *)
Fixpoint ReadAtLeast_loop (fuel min : nat) (got : list byte) (b : Reader)
  : option (list byte * option error * Reader) :=
  match fuel with
  | O => None
  | S fuel' =>
      if (length got <? min)%nat then
        let '(p, err, b') := Reader_Read (min - length got) b in
        match err with
        | None => ReadAtLeast_loop fuel' min (got ++ p) b'
        | Some e => Some (got ++ p, Some e, b')
        end
      else Some (got, None, b)
  end.

(** [io.ReadFull(r, buf)] with [min = len(buf)]. *)
Definition ReadFull (min : nat) (b : Reader)
  : option (list byte * option error * Reader) :=
  match ReadAtLeast_loop (S (min + length (rd b))) min [] b with
  | None => None
  | Some (got, err, b') =>
      let err :=
        if (min <=? length got)%nat then None
        else match err with
             | Some EOF =>
                 if (0 <? length got)%nat then Some ErrUnexpectedEOF
                 else Some EOF
             | _ => err
             end in
      Some (got, err, b')
  end.

(** [binary.Read(reader, binary.BigEndian, &x)] for an [x] of [size]
    bytes: the bytes of [x] or the error of [io.ReadFull]. *)
Definition binary_Read (size : nat) (b : Reader)
  : option ((error + list byte) * Reader) :=
  match ReadFull size b with
  | None => None
  | Some (_, Some e, b') => Some (inl e, b')
  | Some (bs, None, b') => Some (inr bs, b')
  end.

(** ** The decode loop *)

Definition set_Algo (d : Data) (a : uint16) : Data :=
  mkData (C2sKey d) (S2cKey d) (Server d) (Port d) (Cookie d) a.

Definition set_Cookie (d : Data) (c : list (list byte)) : Data :=
  mkData (C2sKey d) (S2cKey d) (Server d) (Port d) c (Algo d).

Definition set_Server (d : Data) (s : string) : Data :=
  mkData (C2sKey d) (S2cKey d) s (Port d) (Cookie d) (Algo d).

Definition set_Port (d : Data) (p : uint16) : Data :=
  mkData (C2sKey d) (S2cKey d) (Server d) p (Cookie d) (Algo d).

(** What [Read] leaves behind: the error it returns ([None] is [nil]),
    the [Data] it was given a pointer to, and the reader. *)
Definition result : Type := option error * Data * Reader.

(** One turn of the [for] loop of [Read]: it either returns ([inl]) or
    falls through to the next turn ([inr]) with the reader and the data
    as they are then. *)
Definition Read_turn (reader : Reader) (data : Data)
  : option (result + Reader * Data) :=
  match binary_Read 4 reader with
  | None => None
  | Some (inl err, reader) => Some (inl (Some err, data, reader))
  | Some (inr bs, reader) =>
      let msg := mkHdr (Uint16 (firstn 2 bs)) (Uint16 (skipn 2 bs)) in
      let critical := hasBit (Type_ msg) 15 in
      let msg := mkHdr (Z.ldiff (Type_ msg) (Z.shiftl 1 15)) (BodyLen msg) in
      if Type_ msg =? RecEom then Some (inl (None, data, reader))
      else if Type_ msg =? RecNextproto then
        match binary_Read 2 reader with
        | None => None
        | Some (inl _, reader) =>
            Some (inl (Some ErrBufferOverrun, data, reader))
        | Some (inr _, reader) => Some (inr (reader, data))
        end
      else if Type_ msg =? RecAead then
        match binary_Read 2 reader with
        | None => None
        | Some (inl _, reader) =>
            Some (inl (Some ErrBufferOverrun, data, reader))
        | Some (inr aead, reader) =>
            Some (inr (reader, set_Algo data (Uint16 aead)))
        end
      else if Type_ msg =? RecCookie then
        let n := Z.to_nat (BodyLen msg) in
        let '(p, err, reader) := Reader_Read n reader in
        let cookie := p ++ repeat x00 (n - length p) in
        match err with
        | Some _ => Some (inl (Some ErrBufferOverrun, data, reader))
        | None =>
            Some (inr (reader, set_Cookie data (Cookie data ++ [cookie])))
        end
      else if Type_ msg =? RecServer then
        match binary_Read (Z.to_nat (BodyLen msg)) reader with
        | None => None
        | Some (inl _, reader) =>
            Some (inl (Some ErrBufferOverrun, data, reader))
        | Some (inr address, reader) =>
            Some (inr (reader, set_Server data (string_of_list_byte address)))
        end
      else if Type_ msg =? RecPort then
        match binary_Read 2 reader with
        | None => None
        | Some (inl _, reader) =>
            Some (inl (Some ErrBufferOverrun, data, reader))
        | Some (inr port, reader) =>
            Some (inr (reader, set_Port data (Uint16 port)))
        end
      else if critical then
        Some (inl (Some (ErrUnknownRecord (Type_ msg)), data, reader))
      else
        match binary_Read (Z.to_nat (BodyLen msg)) reader with
        | None => None
        | Some (inl _, reader) =>
            Some (inl (Some ErrBufferOverrun, data, reader))
        | Some (inr _, reader) => Some (inr (reader, data))
        end
  end.

Fixpoint Read_loop (fuel : nat) (reader : Reader) (data : Data)
  : option result :=
  match fuel with
  | O => None
  | S fuel' =>
      match Read_turn reader data with
      | None => None
      | Some (inl res) => Some res
      | Some (inr (reader', data')) => Read_loop fuel' reader' data'
      end
  end.

(** [Read(log, reader, data)].  Every turn that goes on has taken the
    four bytes of a header, so one turn more than there are bytes is
    enough ([Read_returns] below). *)
Definition Read (reader : Reader) (data : Data) : option result :=
  Read_loop (S (length (remaining reader))) reader data.

Definition Data0 : Data := mkData None None EmptyString 0 [] 0.

(** The type field of a four-byte header as it is on the wire, and its
    type code, the field with the critical bit cleared. *)
Definition header_type (hdr : list byte) : uint16 := Uint16 (firstn 2 hdr).

Definition type_code (hdr : list byte) : uint16 :=
  Z.ldiff (header_type hdr) (Z.shiftl 1 15).

(** The type codes the [switch] of [Read] has a [case] for, and the
    eight type codes of the protocol. *)
Definition handled : list uint16 :=
  [RecEom; RecNextproto; RecAead; RecCookie; RecServer; RecPort].

Definition known : list uint16 :=
  [RecEom; RecNextproto; RecError; RecWarning; RecAead; RecCookie;
   RecServer; RecPort].

(** The bytes [Pack] produces for a message; [Pack] has no failing
    path for the records above. *)
Definition wire (m : list Record_) : list byte :=
  match Pack m with
  | inr buf => buf
  | inl _ => []
  end.

(** ** Key export and the connection *)

(** [tls.ConnectionState]: the negotiated ALPN protocol and the
    exporter; the exporter returns its two results, and the caller
    stores the first whatever the second is. *)
Record ConnectionState := mkState {
  NegotiatedProtocol : string;
  ExportKeyingMaterial :
    string -> list byte -> Z -> option (list byte) * option error
}.

Definition set_S2cKey (d : Data) (k : option (list byte)) : Data :=
  mkData (C2sKey d) k (Server d) (Port d) (Cookie d) (Algo d).

Definition set_C2sKey (d : Data) (k : option (list byte)) : Data :=
  mkData k (S2cKey d) (Server d) (Port d) (Cookie d) (Algo d).

Definition label : string := "EXPORTER-network-time-security".
Definition s2cContext : list byte := [x00; x00; x00; x0f; x01].
Definition c2sContext : list byte := [x00; x00; x00; x0f; x00].

(** [ExportKeys(cs, data)]: the error returned and the [Data] behind
    the pointer afterwards. *)
Definition ExportKeys (cs : ConnectionState) (data : Data)
  : option error * Data :=
  let len := 32 in
  let '(key, err) := ExportKeyingMaterial cs label s2cContext len in
  let data := set_S2cKey data key in
  match err with
  | Some e => (Some e, data)
  | None =>
      let '(key, err) := ExportKeyingMaterial cs label c2sContext len in
      let data := set_C2sKey data key in
      match err with
      | Some e => (Some e, data)
      | None => (None, data)
      end
  end.

(** An exporter that gives a key for the server-to-client context and
    fails for the client-to-server one. *)
Definition half_exporter : ConnectionState :=
  mkState alpn
    (fun _ context _ =>
       if list_eq_dec Byte.byte_eq_dec context s2cContext
       then (Some (repeat x2a 32), None)
       else (None, Some (ErrOther "export failed"))).

(** A [*tls.Conn], and a [net.Conn] that is one or is not. *)
Record tlsConn := mkConn {
  RemoteAddr : string;
  ConnectionState_ : ConnectionState
}.

Inductive Conn : Type :=
| IsTLS (c : tlsConn)
| NotTLS.

(** A [net.Listener], by what its next [Accept] returns. *)
Record Listener := mkListener {
  Accept : error + Conn
}.

Definition NewTCPListener (listener : Listener) : error + tlsConn :=
  match Accept listener with
  | inl _ => inl (ErrOther "Couldn't answer`")
  | inr conn =>
      match conn with
      | IsTLS tlsConn => inr tlsConn
      | NotTLS => inl (ErrOther "could not convert to tls connection")
      end
  end.

(** The fields of [tls.Config] that matter here. *)
Record Config := mkConfig {
  NextProtos : list string;
  ServerName : string;
  InsecureSkipVerify : bool
}.

Definition set_NextProtos (c : Config) (p : list string) : Config :=
  mkConfig p (ServerName c) (InsecureSkipVerify c).

(** [strings.Contains]. *)
Definition Contains (s substr : string) : bool :=
  match index 0 substr s with
  | Some _ => true
  | None => false
  end.

Section Net.

(** Package [net] and the dialer, as [ConnectTCP] uses them:
    [net.SplitHostPort] returns host and port or an error, given by its
    text; [tls.DialWithDialer] works on the configuration it is handed
    and does not write to it. *)
Variable SplitHostPort : string -> string + string * string.
Variable JoinHostPort : string -> string -> string.
Variable DialWithDialer : string -> string -> Config -> error + tlsConn.

(** [ConnectTCP(hostport, config)]: the configuration behind the
    pointer afterwards, and what is returned. *)
Definition ConnectTCP (hostport : string) (config : Config)
  : Config * (error + tlsConn * Data) :=
  let config := set_NextProtos config [alpn] in
  let step1 : error + string :=
    match SplitHostPort hostport with
    | inl err =>
        if negb (Contains err "missing port in address")
        then inl (ErrOther err)
        else inr (JoinHostPort hostport "4460")
    | inr _ => inr hostport
    end in
  (config,
   hostport <- step1 ;;
   conn <- DialWithDialer "tcp" hostport config ;;
   match SplitHostPort (RemoteAddr conn) with
   | inl err => inl (ErrOther ("unexpected remoteaddr issue: " ++ err))
   | inr (host, _) =>
       let data := set_Server Data0 host in
       let data := set_Port data DEFAULT_NTP_PORT in
       let state := ConnectionState_ conn in
       if negb (NegotiatedProtocol state =? alpn)%string
       then inl (ErrOther "server not speaking ntske/1")
       else inr (conn, data)
   end).

End Net.

(** ** The exchange of the client *)

(** [ExchangeTCP(log, conn, data)]: [Write] is what [conn.Write] answers
    to the bytes it is given, [conn] is what the connection will
    deliver.  The error returned and the [Data] behind the pointer. *)
Definition ExchangeTCP (Write : list byte -> option error)
  (conn : list (list byte)) (data : Data) : option (option error * Data) :=
  let reader := NewReader conn in
  match Pack ExchangeTCP_msg with
  | inl err => Some (Some err, data)
  | inr buf =>
      match Write buf with
      | Some err => Some (Some err, data)
      | None =>
          match Read reader data with
          | None => None
          | Some (err, data, _) => Some (err, data)
          end
      end
  end.

(** ** Records as they are sent and as they are read *)

(** The arguments [pack] gives to [packsimple] and [packheader] for
    each record type: type code, critical bit, value. *)
Definition record_type (r : Record_) : uint16 :=
  match r with
  | NextProto _ => RecNextproto
  | End_ => RecEom
  | Server_ _ _ => RecServer
  | Port_ _ _ => RecPort
  | Cookie_ _ => RecCookie
  | Warning _ => RecWarning
  | Error _ => RecError
  | Algorithm _ => RecAead
  end.

Definition record_critical (r : Record_) : bool :=
  match r with
  | Server_ _ c | Port_ _ c => c
  | Cookie_ _ => false
  | _ => true
  end.

Definition payload (r : Record_) : list byte :=
  match r with
  | NextProto n => encode (VUint16 n)
  | End_ => []
  | Server_ addr _ => encode (VBytes addr)
  | Port_ p _ => encode (VUint16 p)
  | Cookie_ c => encode (VBytes c)
  | Warning code | Error code => encode (VUint16 code)
  | Algorithm a => encode (VUint16s a)
  end.

(** What a turn of [Read] does to the data for a record of each type
    that has a [case] and goes on. *)
Definition apply_record (r : Record_) (d : Data) : Data :=
  match r with
  | Server_ addr _ => set_Server d (string_of_list_byte addr)
  | Port_ p _ => set_Port d p
  | Cookie_ c => set_Cookie d (Cookie d ++ [c])
  | Algorithm [a] => set_Algo d a
  | _ => d
  end.

(** The records [Read] takes in as they were sent: values that fit 16
    bits, bodies whose length fits 16 bits, one algorithm. *)
Definition decodable (r : Record_) : Prop :=
  match r with
  | NextProto _ => True
  | Server_ addr _ => Z.of_nat (length addr) < 65536
  | Port_ p _ => 0 <= p < 65536
  | Cookie_ c => Z.of_nat (length c) < 65536
  | Algorithm [a] => 0 <= a < 65536
  | _ => False
  end.

(** The data after the turns of [Read] on the records of a message. *)
Definition decode (m : list Record_) (d : Data) : Data :=
  fold_left (fun d r => apply_record r d) m d.

Definition is_Cookie (r : Record_) : bool :=
  match r with
  | Cookie_ _ => true
  | _ => false
  end.

(** The bytes a turn of [Read] asks for after a header that is neither
    End of Message nor Cookie: two for the records of fixed size, the
    declared length otherwise. *)
Definition body_need (hdr : list byte) : nat :=
  if (type_code hdr =? RecNextproto) || (type_code hdr =? RecAead)
     || (type_code hdr =? RecPort)
  then 2%nat
  else Z.to_nat (Uint16 (skipn 2 hdr)).

(** * Properties *)

Lemma defaultBufSize_eq : Z.of_nat defaultBufSize = 4096.
Proof. reflexivity. Qed.

Global Opaque defaultBufSize.

(** ** The reader hands out the bytes of the connection, in order *)

Lemma app_eq_length {A : Type} (a b c d : list A) :
  a ++ b = c ++ d -> length a = length c -> a = c /\ b = d.
Proof.
  revert c; induction a as [|x a IH]; intros [|y c] H L;
    simpl in *; try discriminate; auto.
  injection H as -> H. destruct (IH c H) as [-> ->]; auto.
Qed.

Lemma rd_Read_spec (n : nat) (src : list (list byte)) p err src' :
  rd_Read n src = (p, err, src') ->
  concat src = p ++ concat src' /\
  (length p <= n)%nat /\
  (length src' <= length src)%nat /\
  match err with
  | None => (0 < n -> length src' < length src + length p)%nat
  | Some e => e = EOF /\ p = [] /\ src = [] /\ src' = []
  end.
Proof.
  destruct src as [|c rest]; simpl; intros H; injection H as <- <- <-.
  - repeat split; auto with arith.
  - split; [|split; [|split]].
    + rewrite <- (firstn_skipn n c) at 1. rewrite <- app_assoc.
      destruct (skipn n c); reflexivity.
    + rewrite length_firstn. lia.
    + destruct (skipn n c); simpl; lia.
    + intros Hn. destruct (skipn n c) eqn:E.
      * simpl. lia.
      * simpl. destruct c as [|x c]; [destruct n; discriminate|].
        destruct n; [lia|]. simpl. lia.
Qed.

Lemma Reader_Read_spec (n : nat) (b : Reader) p err b' :
  Reader_Read n b = (p, err, b') ->
  remaining b = p ++ remaining b' /\
  (length p <= n)%nat /\
  match err with
  | None => (0 < n -> length (rd b') < length (rd b) + length p)%nat
  | Some e => e = EOF /\ p = [] /\ remaining b' = []
  end.
Proof.
  pose proof defaultBufSize_eq as HB.
  unfold Reader_Read, remaining. destruct n as [|n].
  - intros H; injection H as <- <- <-. simpl. repeat split; auto; lia.
  - destruct b as [bf src]; simpl. destruct bf as [|x bf].
    + destruct (defaultBufSize <=? S n)%nat.
      * destruct (rd_Read (S n) src) as [[p0 e0] s0] eqn:E.
        intros H; injection H as <- <- <-. simpl.
        apply rd_Read_spec in E. destruct E as (E1 & E2 & E3 & E4).
        repeat split; auto. destruct e0; auto.
        destruct E4 as (-> & -> & -> & ->); auto.
      * destruct (rd_Read defaultBufSize src) as [[got e0] s0] eqn:E.
        apply rd_Read_spec in E. destruct E as (E1 & E2 & E3 & E4).
        destruct got as [|g got].
        -- intros H; injection H as <- <- <-. simpl.
           repeat split; auto with arith. destruct e0.
           ++ destruct E4 as (-> & _ & -> & ->); auto.
           ++ intros _. simpl in E4. apply E4. lia.
        -- intros H; injection H as <- <- <-. simpl.
           destruct e0; [destruct E4 as (_ & E4 & _); discriminate|].
           split; [|split].
           ++ rewrite E1. simpl. f_equal.
              rewrite app_assoc, firstn_skipn. reflexivity.
           ++ rewrite length_firstn. lia.
           ++ intros _. lia.
    + intros H; injection H as <- <- <-. simpl.
      split; [|split].
      * f_equal. rewrite app_assoc, firstn_skipn. reflexivity.
      * rewrite length_firstn. lia.
      * lia.
Qed.

Lemma ReadAtLeast_loop_spec (fuel min : nat) :
  forall got b,
    (length got <= min)%nat ->
    (min - length got + length (rd b) < fuel)%nat ->
    exists got' err b',
      ReadAtLeast_loop fuel min got b = Some (got', err, b') /\
      got ++ remaining b = got' ++ remaining b' /\
      match err with
      | None => length got' = min
      | Some e => e = EOF /\ remaining b' = [] /\ (length got' < min)%nat
      end.
Proof.
  induction fuel as [|fuel IH]; intros got b Hlen Hfuel; [lia|].
  simpl. destruct (length got <? min)%nat eqn:L.
  - apply Nat.ltb_lt in L.
    destruct (Reader_Read (min - length got) b) as [[p e] b1] eqn:R.
    apply Reader_Read_spec in R. destruct R as (R1 & R2 & R3).
    destruct e as [e|].
    + destruct R3 as (-> & -> & R3).
      exists (got ++ []), (Some EOF), b1. repeat split; auto.
      * rewrite R1. rewrite app_assoc. reflexivity.
      * rewrite app_nil_r. exact L.
    + assert (L' : (0 < min - length got)%nat) by lia.
      specialize (R3 L').
      destruct (IH (got ++ p) b1) as (got' & err & b' & E1 & E2 & E3).
      * rewrite length_app. lia.
      * rewrite length_app. lia.
      * exists got', err, b'. repeat split; auto.
        rewrite R1, app_assoc. exact E2.
  - apply Nat.ltb_ge in L. exists got, None, b. repeat split; auto. lia.
Qed.

(** [io.ReadFull] always returns: all [min] bytes and no error, or
    fewer, [io.EOF] or [io.ErrUnexpectedEOF], and the reader empty. *)
Lemma ReadFull_spec (min : nat) (b : Reader) :
  exists got err b',
    ReadFull min b = Some (got, err, b') /\
    remaining b = got ++ remaining b' /\
    match err with
    | None => length got = min
    | Some e =>
        (e = EOF \/ e = ErrUnexpectedEOF) /\
        remaining b' = [] /\ (length got < min)%nat
    end.
Proof.
  unfold ReadFull.
  assert (H0 : (length (@nil byte) <= min)%nat) by (simpl; lia).
  assert (H1 : (min - length (@nil byte) + length (rd b)
                < S (min + length (rd b)))%nat) by (simpl; lia).
  destruct (ReadAtLeast_loop_spec _ min [] b H0 H1)
    as (got & err & b' & E1 & E2 & E3).
  simpl app in E2. rewrite E1. destruct err as [e|].
  - destruct E3 as (-> & E3 & E4).
    assert (L : (min <=? length got)%nat = false) by (apply Nat.leb_gt; lia).
    rewrite L. eexists _, _, _. split; [reflexivity|].
    split; [exact E2|]. destruct (0 <? length got)%nat; auto.
  - assert (L : (min <=? length got)%nat = true) by (apply Nat.leb_le; lia).
    rewrite L. exists got, None, b'. auto.
Qed.

Lemma binary_Read_spec (size : nat) (b : Reader) :
  (exists bs b',
      binary_Read size b = Some (inr bs, b') /\
      remaining b = bs ++ remaining b' /\ length bs = size) \/
  (exists e b',
      binary_Read size b = Some (inl e, b') /\
      (e = EOF \/ e = ErrUnexpectedEOF) /\
      remaining b' = [] /\ (length (remaining b) < size)%nat).
Proof.
  unfold binary_Read.
  destruct (ReadFull_spec size b) as (got & err & b' & E1 & E2 & E3).
  rewrite E1. destruct err as [e|].
  - right. exists e, b'. destruct E3 as (E3 & E4 & E5).
    repeat split; auto. rewrite E2, E4, app_nil_r. exact E5.
  - left. exists got, b'. auto.
Qed.

(** With [size] bytes still to come, [binary.Read] returns them,
    however the connection cuts them up. *)
Lemma binary_Read_ok (size : nat) (b : Reader) (h rest : list byte) :
  remaining b = h ++ rest -> length h = size ->
  exists b', binary_Read size b = Some (inr h, b') /\ remaining b' = rest.
Proof.
  intros Hrem Hlen.
  destruct (binary_Read_spec size b)
    as [(bs & b' & E1 & E2 & E3)|(e & b' & E1 & _ & _ & E4)].
  - rewrite Hrem in E2. destruct (app_eq_length _ _ _ _ E2) as [-> ->];
      [lia|]. exists b'. auto.
  - rewrite Hrem, length_app in E4. lia.
Qed.

(** ** One turn of the loop *)

Ltac sub_read r1 n :=
  let bs := fresh "bs" in let r2 := fresh "r" in let e := fresh "e" in
  let F1 := fresh "F" in let F2 := fresh "F" in let F3 := fresh "F" in
  let F4 := fresh "F" in
  destruct (binary_Read_spec n r1)
    as [(bs & r2 & F1 & F2 & F3)|(e & r2 & F1 & F2 & F3 & F4)];
  rewrite F1;
  [ eexists; split; [reflexivity|]
  | eexists; split; [reflexivity|]; split; [reflexivity|];
    left; split; [reflexivity|assumption] ].

(** What a turn does to the reader, by the way it ends. *)
Lemma Read_turn_spec (r : Reader) (d : Data) :
  exists out, Read_turn r d = Some out /\
  match out with
  | inr (r', d') =>
      exists used, remaining r = used ++ remaining r' /\ (4 <= length used)%nat
  | inl (None, d', r') =>
      d' = d /\
      exists hdr, remaining r = hdr ++ remaining r' /\ length hdr = 4%nat /\
                  type_code hdr = RecEom
  | inl (Some e, d', r') =>
      d' = d /\
      ((TruncatedStream e = true /\ remaining r' = []) \/
       (exists hdr, remaining r = hdr ++ remaining r' /\ length hdr = 4%nat /\
                    hasBit (header_type hdr) 15 = true /\
                    ~ In (type_code hdr) handled /\
                    e = ErrUnknownRecord (type_code hdr)))
  end.
Proof.
  unfold Read_turn.
  destruct (binary_Read_spec 4 r)
    as [(bs & r1 & E1 & E2 & E3)|(e & r1 & E1 & E2 & E3 & E4)]; rewrite E1.
  2:{ eexists; split; [reflexivity|]. split; [reflexivity|]. left.
      split; [|assumption]. destruct E2 as [-> | ->]; reflexivity. }
  cbv beta zeta. cbn [Type_ BodyLen].
  fold (header_type bs). fold (type_code bs).
  destruct (type_code bs =? RecEom) eqn:T0.
  { eexists; split; [reflexivity|]. split; [reflexivity|].
    exists bs. apply Z.eqb_eq in T0. auto. }
  destruct (type_code bs =? RecNextproto) eqn:T1.
  { sub_read r1 2%nat. exists (bs ++ bs0).
    rewrite E2, F0, length_app, <- app_assoc. split; [reflexivity|lia]. }
  destruct (type_code bs =? RecAead) eqn:T4.
  { sub_read r1 2%nat. exists (bs ++ bs0).
    rewrite E2, F0, length_app, <- app_assoc. split; [reflexivity|lia]. }
  destruct (type_code bs =? RecCookie) eqn:T5.
  { destruct (Reader_Read (Z.to_nat (Uint16 (skipn 2 bs))) r1)
      as [[p e] r2] eqn:R.
    apply Reader_Read_spec in R. destruct R as (R1 & R2 & R3).
    destruct e as [e|].
    - eexists; split; [reflexivity|]. split; [reflexivity|]. left.
      split; [reflexivity|]. apply R3.
    - eexists; split; [reflexivity|]. exists (bs ++ p).
      rewrite E2, R1, length_app, <- app_assoc. split; [reflexivity|lia]. }
  destruct (type_code bs =? RecServer) eqn:T6.
  { sub_read r1 (Z.to_nat (Uint16 (skipn 2 bs))). exists (bs ++ bs0).
    rewrite E2, F0, length_app, <- app_assoc. split; [reflexivity|lia]. }
  destruct (type_code bs =? RecPort) eqn:T7.
  { sub_read r1 2%nat. exists (bs ++ bs0).
    rewrite E2, F0, length_app, <- app_assoc. split; [reflexivity|lia]. }
  destruct (hasBit (header_type bs) 15) eqn:C.
  { eexists; split; [reflexivity|]. split; [reflexivity|]. right.
    exists bs. repeat split; auto.
    apply Z.eqb_neq in T0, T1, T4, T5, T6, T7.
    simpl. intuition congruence. }
  sub_read r1 (Z.to_nat (Uint16 (skipn 2 bs))). exists (bs ++ bs0).
  rewrite E2, F0, length_app, <- app_assoc. split; [reflexivity|lia].
Qed.

(** ** The loop returns *)

Lemma Read_loop_enough (fuel : nat) :
  forall r d,
    (length (remaining r) < fuel)%nat ->
    exists res,
      Read_loop fuel r d = Some res /\
      forall fuel', (length (remaining r) < fuel')%nat ->
                    Read_loop fuel' r d = Some res.
Proof.
  induction fuel as [|fuel IH]; intros r d Hf; [lia|].
  destruct (Read_turn_spec r d) as (out & E & S).
  simpl. rewrite E. destruct out as [res|[r' d']].
  - exists res. split; [reflexivity|].
    intros [|f'] Hf'; [lia|]. simpl. rewrite E. reflexivity.
  - destruct S as (used & S1 & S2).
    assert (L : (length (remaining r') + 4 <= length (remaining r))%nat)
      by (rewrite S1, length_app; lia).
    destruct (IH r' d') as (res & R1 & R2); [lia|].
    exists res. split; [exact R1|].
    intros [|f'] Hf'; [lia|]. simpl. rewrite E. apply R2. lia.
Qed.

Lemma Read_returns (r : Reader) (d : Data) : exists res, Read r d = Some res.
Proof.
  destruct (Read_loop_enough (S (length (remaining r))) r d) as (res & E & _);
    [lia|]. exists res. exact E.
Qed.

(** The equation of the loop: one turn, then [Read] again. *)
Lemma Read_unfold (r : Reader) (d : Data) :
  Read r d =
  match Read_turn r d with
  | None => None
  | Some (inl res) => Some res
  | Some (inr (r', d')) => Read r' d'
  end.
Proof.
  unfold Read at 1. simpl.
  destruct (Read_turn_spec r d) as (out & E & S). rewrite E.
  destruct out as [res|[r' d']]; [reflexivity|].
  destruct S as (used & S1 & S2).
  destruct (Read_loop_enough (S (length (remaining r'))) r' d')
    as (res & R1 & R2); [lia|].
  unfold Read. rewrite R1. apply R2. rewrite S1, length_app. lia.
Qed.


Lemma not_known_not_handled (t : uint16) : ~ In t known -> ~ In t handled.
Proof. unfold known, handled. simpl. intuition. Qed.

(** The turn on a header of a type code without a [case]. *)
Lemma Read_turn_default (r r1 : Reader) (d : Data) (hdr : list byte) :
  binary_Read 4 r = Some (inr hdr, r1) ->
  ~ In (type_code hdr) handled ->
  Read_turn r d =
  if hasBit (header_type hdr) 15
  then Some (inl (Some (ErrUnknownRecord (type_code hdr)), d, r1))
  else match binary_Read (Z.to_nat (Uint16 (skipn 2 hdr))) r1 with
       | None => None
       | Some (inl _, r2) => Some (inl (Some ErrBufferOverrun, d, r2))
       | Some (inr _, r2) => Some (inr (r2, d))
       end.
Proof.
  intros E H. unfold Read_turn. rewrite E.
  cbv beta zeta. cbn [Type_ BodyLen].
  fold (header_type hdr). fold (type_code hdr).
  unfold handled in H. simpl in H.
  repeat match goal with
  | |- context [type_code hdr =? ?c] =>
      let T := fresh "T" in
      destruct (type_code hdr =? c) eqn:T;
      [apply Z.eqb_eq in T; exfalso; apply H; rewrite T; simpl; tauto|]
  end.
  reflexivity.
Qed.

(** The turn on a header of type code End of Message. *)
Lemma Read_turn_eom (r r1 : Reader) (d : Data) (hdr : list byte) :
  binary_Read 4 r = Some (inr hdr, r1) ->
  type_code hdr = RecEom ->
  Read_turn r d = Some (inl (None, d, r1)).
Proof.
  intros E H. unfold Read_turn. rewrite E.
  cbv beta zeta. cbn [Type_ BodyLen].
  fold (header_type hdr). fold (type_code hdr).
  rewrite H. reflexivity.
Qed.

(** ** Unrecognised records *)

(** C3.  If the first four bytes of the stream are a header with the
    critical bit set and a type code outside the eight codes of the
    protocol, then, whatever the body length it declares, whatever
    follows it and however the connection cuts the bytes up, [Read]
    returns the unknown-record error carrying that type code, leaves
    the data as it was, and has taken exactly the four header bytes
    from the reader: everything after the header is still unread. *)
Theorem Read_unknown_critical
  (conn : list (list byte)) (hdr rest : list byte) (d : Data) :
  length hdr = 4%nat ->
  concat conn = hdr ++ rest ->
  hasBit (header_type hdr) 15 = true ->
  ~ In (type_code hdr) known ->
  exists r',
    Read (NewReader conn) d =
      Some (Some (ErrUnknownRecord (type_code hdr)), d, r') /\
    UnsupportedCriticalRecord (ErrUnknownRecord (type_code hdr)) =
      Some (type_code hdr) /\
    remaining r' = rest.
Proof.
  intros L E C K.
  destruct (binary_Read_ok 4 (NewReader conn) hdr rest) as (r1 & B & R);
    [exact E|exact L|].
  exists r1. rewrite Read_unfold.
  rewrite (Read_turn_default _ r1 d hdr B (not_known_not_handled _ K)).
  rewrite C. auto.
Qed.

Lemma Read_unknown_critical_witness :
  let conn := [[x80; x09]; [x00; x08; xaa]; [xbb]] in
  let hdr := [x80; x09; x00; x08] in
  length hdr = 4%nat /\
  concat conn = hdr ++ [xaa; xbb] /\
  hasBit (header_type hdr) 15 = true /\
  ~ In (type_code hdr) known /\
  exists r',
    Read (NewReader conn) Data0 =
      Some (Some (ErrUnknownRecord (type_code hdr)), Data0, r') /\
    UnsupportedCriticalRecord (ErrUnknownRecord (type_code hdr)) =
      Some (type_code hdr) /\
    remaining r' = [xaa; xbb].
Proof.
  assert (K : ~ In (type_code [x80; x09; x00; x08]) known)
    by (vm_compute; intuition discriminate).
  repeat split; try reflexivity; try exact K.
  apply (Read_unknown_critical
           [[x80; x09]; [x00; x08; xaa]; [xbb]] [x80; x09; x00; x08]
           [xaa; xbb] Data0); try reflexivity; exact K.
Defined.

(** C4.  If the stream is one record with the critical bit clear and
    a type code outside the eight codes of the protocol, with a body of
    exactly the length its header declares, followed by the End of
    Message record as [pack] writes it, then, however the connection
    cuts the bytes up, [Read] returns [nil] and the data is what it was
    before: server, port, cookies, algorithm and keys are untouched.
    What follows the End of Message record is left unread. *)
Theorem Read_unknown_noncritical
  (conn : list (list byte)) (hdr body tail : list byte) (d : Data) :
  length hdr = 4%nat ->
  hasBit (header_type hdr) 15 = false ->
  ~ In (type_code hdr) known ->
  length body = Z.to_nat (Uint16 (skipn 2 hdr)) ->
  concat conn = hdr ++ body ++ wire [End_] ++ tail ->
  exists r',
    Read (NewReader conn) d = Some (None, d, r') /\ remaining r' = tail.
Proof.
  intros L C K Lb E.
  destruct (binary_Read_ok 4 (NewReader conn) hdr _ E L) as (r1 & B1 & R1).
  destruct (binary_Read_ok _ r1 body _ R1 Lb) as (r2 & B2 & R2).
  destruct (binary_Read_ok 4 r2 (wire [End_]) tail R2 eq_refl)
    as (r3 & B3 & R3).
  exists r3. split; [|exact R3].
  rewrite Read_unfold.
  rewrite (Read_turn_default _ r1 d hdr B1 (not_known_not_handled _ K)).
  rewrite C, B2. rewrite Read_unfold.
  rewrite (Read_turn_eom _ r3 d _ B3); reflexivity.
Qed.

Lemma Read_unknown_noncritical_witness :
  let conn := [[x00; x09; x00]; [x02; xaa; xbb; x80; x00]; [x00; x00]] in
  let hdr := [x00; x09; x00; x02] in
  let d := mkData None None "198.51.100.7" 123 [[x01]] 15 in
  length hdr = 4%nat /\
  hasBit (header_type hdr) 15 = false /\
  ~ In (type_code hdr) known /\
  length [xaa; xbb] = Z.to_nat (Uint16 (skipn 2 hdr)) /\
  concat conn = hdr ++ [xaa; xbb] ++ wire [End_] ++ [] /\
  exists r', Read (NewReader conn) d = Some (None, d, r') /\ remaining r' = [].
Proof.
  assert (K : ~ In (type_code [x00; x09; x00; x02]) known)
    by (vm_compute; intuition discriminate).
  repeat split; try reflexivity; try exact K.
  apply (Read_unknown_noncritical
           [[x00; x09; x00]; [x02; xaa; xbb; x80; x00]; [x00; x00]]
           [x00; x09; x00; x02] [xaa; xbb] [] _);
    try reflexivity; exact K.
Defined.

(** ** Words and bytes *)

Lemma Z_of_byte_of_Z (x : Z) : Z_of_byte (byte_of_Z x) = x mod 256.
Proof.
  unfold Z_of_byte, byte_of_Z.
  assert (B : 0 <= x mod 256 < 256) by (apply Z.mod_pos_bound; lia).
  destruct (Byte.of_N (Z.to_N (x mod 256))) as [b|] eqn:E.
  - apply Byte.to_of_N in E. rewrite E. apply Z2N.id. lia.
  - apply Byte.of_N_None_iff in E. lia.
Qed.

Lemma Uint16_PutUint16 (v : Z) (bs : list byte) :
  0 <= v < 65536 -> Uint16 (PutUint16 v ++ bs) = v.
Proof.
  intros Hv. unfold Uint16, PutUint16. cbn [app].
  rewrite !Z_of_byte_of_Z.
  assert (H8 : Z.shiftr v 8 mod 256 = Z.shiftr v 8).
  { apply Z.mod_small. rewrite Z.shiftr_div_pow2 by lia.
    change (2 ^ 8) with 256. split.
    - apply Z.div_pos; lia.
    - apply Z.div_lt_upper_bound; lia. }
  rewrite H8.
  change 256 with (2 ^ 8). rewrite <- Z.land_ones by lia.
  rewrite <- Z.ldiff_ones_r by lia.
  rewrite Z.lor_comm. apply Z.lor_ldiff_and.
Qed.

(** ** What [Pack] writes *)

Lemma pack_app (r : Record_) (buf : Buffer) :
  pack r buf = inr (buf ++ wire [r]).
Proof.
  unfold wire, Pack. cbn [Pack_loop].
  destruct r; cbn; try destruct critical; cbn; rewrite <- ?app_assoc;
    reflexivity.
Qed.

Lemma Pack_loop_app (m : list Record_) :
  forall buf, Pack_loop m buf = inr (buf ++ flat_map (fun r => wire [r]) m).
Proof.
  induction m as [|r m IH]; intros buf; cbn [Pack_loop flat_map].
  - rewrite app_nil_r. reflexivity.
  - rewrite pack_app. cbn [bind]. rewrite IH, <- app_assoc. reflexivity.
Qed.

Lemma wire_flat_map (m : list Record_) :
  wire m = flat_map (fun r => wire [r]) m.
Proof. unfold wire at 1, Pack. rewrite Pack_loop_app. reflexivity. Qed.

Lemma wire_app (m1 m2 : list Record_) : wire (m1 ++ m2) = wire m1 ++ wire m2.
Proof. rewrite !wire_flat_map. apply flat_map_app. Qed.

Lemma wire_cons (r : Record_) (m : list Record_) :
  wire (r :: m) = wire [r] ++ wire m.
Proof. apply (wire_app [r] m). Qed.

Lemma wire_Cookie (c : list byte) :
  wire [Cookie_ c] =
  [x00; x05] ++ PutUint16 (to_uint16 (Z.of_nat (length c))) ++ c.
Proof. reflexivity. Qed.

(** ** Reads that bufio serves in full *)

Lemma firstn_length_app {A : Type} (h rest : list A) :
  firstn (length h) (h ++ rest) = h.
Proof.
  rewrite firstn_app, Nat.sub_diag, firstn_all. simpl. apply app_nil_r.
Qed.

Lemma skipn_length_app {A : Type} (h rest : list A) :
  skipn (length h) (h ++ rest) = rest.
Proof.
  rewrite skipn_app, Nat.sub_diag, skipn_all. reflexivity.
Qed.

(** What is buffered is handed out without a call on the connection;
    an empty buffer is first filled with what the connection delivers
    next. *)
Lemma Reader_Read_buffered (h rest : list byte) (src : list (list byte)) :
  Reader_Read (length h) (mkReader (h ++ rest) src) =
  (h, None, mkReader rest src).
Proof.
  destruct h as [|x h]; [reflexivity|].
  unfold Reader_Read. cbn [length buffered rd app].
  change (x :: h ++ rest) with ((x :: h) ++ rest).
  change (S (length h)) with (length (x :: h)).
  rewrite firstn_length_app, skipn_length_app. reflexivity.
Qed.

Lemma Reader_Read_fill (h rest : list byte) (src : list (list byte)) :
  h <> [] ->
  (length (h ++ rest) <= defaultBufSize)%nat ->
  Reader_Read (length h) (mkReader [] ((h ++ rest) :: src)) =
  (h, None, mkReader rest src).
Proof.
  intros Hh Hlen. destruct h as [|x h]; [congruence|].
  unfold Reader_Read. cbn [length buffered rd].
  change (S (length h)) with (length (x :: h)).
  destruct (defaultBufSize <=? length (x :: h))%nat eqn:L.
  - apply Nat.leb_le in L. rewrite length_app in Hlen.
    assert (rest = []) by (destruct rest; [reflexivity|simpl in *; lia]).
    subst rest. rewrite app_nil_r. unfold rd_Read.
    rewrite firstn_all, skipn_all. reflexivity.
  - unfold rd_Read. rewrite firstn_all2, skipn_all2 by exact Hlen.
    cbn [app]. change (x :: h ++ rest) with ((x :: h) ++ rest).
    rewrite firstn_length_app, skipn_length_app. reflexivity.
Qed.

Lemma ReadFull_of_Read (h : list byte) (b b' : Reader) :
  Reader_Read (length h) b = (h, None, b') ->
  h <> [] ->
  ReadFull (length h) b = Some (h, None, b').
Proof.
  intros R Hh. unfold ReadFull.
  assert (Hpos : (0 < length h)%nat)
    by (destruct h; [congruence|simpl; lia]).
  destruct (length h + length (rd b))%nat as [|f] eqn:F; [lia|].
  cbn [ReadAtLeast_loop]. cbn [length]. rewrite Nat.sub_0_r.
  destruct (0 <? length h)%nat eqn:L; [|apply Nat.ltb_ge in L; lia].
  rewrite R. cbn [app]. rewrite Nat.ltb_irrefl, Nat.leb_refl. reflexivity.
Qed.

Lemma binary_Read_buffered (h rest : list byte) (src : list (list byte)) :
  h <> [] ->
  binary_Read (length h) (mkReader (h ++ rest) src) =
  Some (inr h, mkReader rest src).
Proof.
  intros Hh. unfold binary_Read.
  rewrite (ReadFull_of_Read h _ _ (Reader_Read_buffered h rest src) Hh).
  reflexivity.
Qed.

Lemma binary_Read_fill (h rest : list byte) (src : list (list byte)) :
  h <> [] ->
  (length (h ++ rest) <= defaultBufSize)%nat ->
  binary_Read (length h) (mkReader [] ((h ++ rest) :: src)) =
  Some (inr h, mkReader rest src).
Proof.
  intros Hh Hlen. unfold binary_Read.
  rewrite (ReadFull_of_Read h _ _ (Reader_Read_fill h rest src Hh Hlen) Hh).
  reflexivity.
Qed.

(** A [Read] that finds nothing and no error makes [io.ReadFull] ask
    again. *)
Lemma binary_Read_empty_chunk (n : nat) (src : list (list byte)) :
  binary_Read (S n) (mkReader [] ([] :: src)) =
  binary_Read (S n) (mkReader [] src).
Proof.
  unfold binary_Read, ReadFull. cbn [rd length].
  rewrite Nat.add_succ_r.
  cbn [ReadAtLeast_loop length Nat.ltb Nat.leb Nat.sub].
  unfold Reader_Read at 1. cbn [buffered rd].
  destruct (defaultBufSize <=? S n)%nat; reflexivity.
Qed.

(** ** Cookie records *)

Lemma set_Cookie_same (d : Data) : set_Cookie d (Cookie d ++ []) = d.
Proof. destruct d; unfold set_Cookie; simpl. rewrite app_nil_r. reflexivity. Qed.

Lemma set_Cookie_twice (d : Data) (c : list byte) (cs : list (list byte)) :
  set_Cookie (set_Cookie d (Cookie d ++ [c]))
             (Cookie (set_Cookie d (Cookie d ++ [c])) ++ cs) =
  set_Cookie d (Cookie d ++ c :: cs).
Proof. unfold set_Cookie; simpl. rewrite <- app_assoc. reflexivity. Qed.

(** The turn on a Cookie record whose body is in the buffer. *)
Lemma Read_turn_cookie (r : Reader) (d : Data)
  (c rest : list byte) (src : list (list byte)) :
  Z.of_nat (length c) < 65536 ->
  binary_Read 4 r =
    Some (inr ([x00; x05] ++ PutUint16 (to_uint16 (Z.of_nat (length c)))),
          mkReader (c ++ rest) src) ->
  Read_turn r d =
  Some (inr (mkReader rest src, set_Cookie d (Cookie d ++ [c]))).
Proof.
  intros Hc B. unfold Read_turn. rewrite B.
  cbv beta zeta. cbn [Type_ BodyLen app firstn skipn PutUint16].
  assert (U : Uint16 (PutUint16 (to_uint16 (Z.of_nat (length c))))
              = Z.of_nat (length c)).
  { assert (S : to_uint16 (Z.of_nat (length c)) = Z.of_nat (length c))
      by (apply Z.mod_small; lia).
    rewrite S. rewrite <- (app_nil_r (PutUint16 _)).
    apply Uint16_PutUint16. lia. }
  rewrite U, Nat2Z.id.
  change (Z.ldiff (Uint16 [x00; x05]) (Z.shiftl 1 15) =? RecEom) with false.
  change (Z.ldiff (Uint16 [x00; x05]) (Z.shiftl 1 15) =? RecNextproto)
    with false.
  change (Z.ldiff (Uint16 [x00; x05]) (Z.shiftl 1 15) =? RecAead) with false.
  change (Z.ldiff (Uint16 [x00; x05]) (Z.shiftl 1 15) =? RecCookie) with true.
  cbv iota. rewrite Reader_Read_buffered.
  rewrite Nat.sub_diag. cbn [repeat]. rewrite app_nil_r. reflexivity.
Qed.

Lemma length_wire_Cookie (c : list byte) :
  length (wire [Cookie_ c]) = (4 + length c)%nat.
Proof. rewrite wire_Cookie. reflexivity. Qed.

Lemma Read_turn_cookie_buffered (d : Data)
  (c rest : list byte) (src : list (list byte)) :
  Z.of_nat (length c) < 65536 ->
  Read_turn (mkReader (wire [Cookie_ c] ++ rest) src) d =
  Some (inr (mkReader rest src, set_Cookie d (Cookie d ++ [c]))).
Proof.
  intros Hc. apply Read_turn_cookie with (c := c); [exact Hc|].
  rewrite wire_Cookie, app_assoc, <- (app_assoc _ c rest).
  apply (binary_Read_buffered
           ([x00; x05] ++ PutUint16 (to_uint16 (Z.of_nat (length c))))).
  discriminate.
Qed.

Lemma Read_turn_cookie_fill (d : Data)
  (c rest : list byte) (src : list (list byte)) :
  (length (wire [Cookie_ c] ++ rest) <= defaultBufSize)%nat ->
  Read_turn (mkReader [] ((wire [Cookie_ c] ++ rest) :: src)) d =
  Some (inr (mkReader rest src, set_Cookie d (Cookie d ++ [c]))).
Proof.
  intros Hlen. pose proof defaultBufSize_eq as HB.
  assert (Hc : Z.of_nat (length c) < 65536).
  { rewrite length_app, length_wire_Cookie in Hlen. lia. }
  apply Read_turn_cookie with (c := c); [exact Hc|].
  revert Hlen.
  rewrite wire_Cookie, app_assoc, <- (app_assoc _ c rest). intros Hlen.
  apply (binary_Read_fill
           ([x00; x05] ++ PutUint16 (to_uint16 (Z.of_nat (length c)))));
    [discriminate|exact Hlen].
Qed.

(** Cookie records that are in the buffer are taken one after the
    other, each appended to the cookies. *)
Lemma Read_cookies_buffered (cs : list (list byte)) :
  forall (rest : list byte) (src : list (list byte)) (d : Data),
    Forall (fun c => Z.of_nat (length c) < 65536) cs ->
    Read (mkReader (wire (map Cookie_ cs) ++ rest) src) d =
    Read (mkReader rest src) (set_Cookie d (Cookie d ++ cs)).
Proof.
  induction cs as [|c cs IH]; intros rest src d F.
  - rewrite set_Cookie_same. reflexivity.
  - inversion F as [|? ? Hc F']; subst.
    cbn [map]. rewrite wire_cons, <- app_assoc.
    rewrite Read_unfold, Read_turn_cookie_buffered by exact Hc.
    rewrite IH by exact F'. rewrite set_Cookie_twice. reflexivity.
Qed.

Lemma length_wire_Cookies (cs : list (list byte)) (c : list byte) :
  In c cs -> (length c <= length (wire (map Cookie_ cs)))%nat.
Proof.
  induction cs as [|c' cs IH]; intros H; [destruct H|].
  cbn [map]. rewrite wire_cons, length_app, length_wire_Cookie.
  destruct H as [->|H]; [lia|]. specialize (IH H). lia.
Qed.

(** Cookie records that arrive together, in one delivery that fits
    the buffer. *)
Lemma Read_cookies_chunk (cs : list (list byte)) (rest : list byte)
  (src : list (list byte)) (d : Data) :
  cs <> [] ->
  (length (wire (map Cookie_ cs) ++ rest) <= defaultBufSize)%nat ->
  Read (mkReader [] ((wire (map Cookie_ cs) ++ rest) :: src)) d =
  Read (mkReader rest src) (set_Cookie d (Cookie d ++ cs)).
Proof.
  intros Hcs Hlen. pose proof defaultBufSize_eq as HB.
  assert (F : Forall (fun c => Z.of_nat (length c) < 65536) cs).
  { apply Forall_forall. intros c Hc.
    apply length_wire_Cookies in Hc. rewrite length_app in Hlen. lia. }
  destruct cs as [|c cs]; [congruence|].
  inversion F as [|? ? Hc F']; subst.
  revert Hlen. cbn [map]. rewrite wire_cons, <- app_assoc. intros Hlen.
  rewrite Read_unfold, Read_turn_cookie_fill by exact Hlen.
  rewrite Read_cookies_buffered by exact F'.
  rewrite set_Cookie_twice. reflexivity.
Qed.

Lemma Read_empty_chunk (src : list (list byte)) (d : Data) :
  Read (mkReader [] ([] :: src)) d = Read (mkReader [] src) d.
Proof.
  rewrite (Read_unfold (mkReader [] ([] :: src))), (Read_unfold (mkReader [] src)).
  unfold Read_turn. rewrite binary_Read_empty_chunk. reflexivity.
Qed.

Lemma Read_eom_buffered (tail : list byte) (src : list (list byte)) (d : Data) :
  Read (mkReader (wire [End_] ++ tail) src) d =
  Some (None, d, mkReader tail src).
Proof.
  rewrite Read_unfold.
  rewrite (Read_turn_eom _ (mkReader tail src) d (wire [End_]));
    [reflexivity| |reflexivity].
  apply (binary_Read_buffered (wire [End_])). discriminate.
Qed.

Lemma Read_eom_chunk (tail : list byte) (src : list (list byte)) (d : Data) :
  (length (wire [End_] ++ tail) <= defaultBufSize)%nat ->
  Read (mkReader [] ((wire [End_] ++ tail) :: src)) d =
  Some (None, d, mkReader tail src).
Proof.
  intros Hlen. rewrite Read_unfold.
  rewrite (Read_turn_eom _ (mkReader tail src) d (wire [End_]));
    [reflexivity| |reflexivity].
  apply (binary_Read_fill (wire [End_])); [discriminate|exact Hlen].
Qed.

(** Where the cookies do accumulate: every delivery of the connection
    is a run of whole Cookie records as [pack] writes them and fits
    bufio's buffer of 4096 bytes, so that no [Read] for a cookie body
    comes back short; the last delivery ends with the End of Message
    record.  Then [Read] returns [nil], and the cookies of the data are
    those it had before followed by the N bodies, each exactly as sent,
    in the order received, equal ones included; nothing else in the
    data changes. *)
Theorem Read_cookies_accumulate
  (css : list (list (list byte))) (last : list (list byte))
  (tail : list byte) (d : Data) :
  Forall (fun cs => Z.of_nat (length (wire (map Cookie_ cs))) <= 4096) css ->
  Z.of_nat (length (wire (map Cookie_ last ++ [End_]) ++ tail)) <= 4096 ->
  Read (NewReader (map (fun cs => wire (map Cookie_ cs)) css ++
                   [wire (map Cookie_ last ++ [End_]) ++ tail])) d =
  Some (None, set_Cookie d (Cookie d ++ concat css ++ last), mkReader tail []).
Proof.
  pose proof defaultBufSize_eq as HB. unfold NewReader.
  revert d. induction css as [|cs css IH]; intros d F L.
  - cbn [map app concat]. revert L. rewrite wire_app, <- app_assoc. intros L.
    destruct last as [|c last].
    + cbn [map]. change (wire []) with (@nil byte). cbn [app].
      rewrite Read_eom_chunk, set_Cookie_same; [reflexivity|].
      revert L. cbn [map]. change (wire []) with (@nil byte). cbn [app]. lia.
    + rewrite Read_cookies_chunk; [|discriminate|lia].
      apply Read_eom_buffered.
  - inversion F as [|? ? Hcs F']; subst. cbn [map app concat].
    destruct cs as [|c cs].
    + cbn [map]. change (wire []) with (@nil byte).
      rewrite Read_empty_chunk. apply (IH d F' L).
    + rewrite <- (app_nil_r (wire (map Cookie_ (c :: cs)))).
      rewrite Read_cookies_chunk; [|discriminate|rewrite app_nil_r; lia].
      rewrite (IH _ F' L). f_equal. f_equal. f_equal.
      unfold set_Cookie; simpl. rewrite <- !app_assoc. reflexivity.
Qed.

Lemma Read_cookies_accumulate_witness :
  let css := [[[xaa; xbb]; []]; []; [[x01]]] in
  let last := [[xaa; xbb]] in
  Forall (fun cs => Z.of_nat (length (wire (map Cookie_ cs))) <= 4096) css /\
  Z.of_nat (length (wire (map Cookie_ last ++ [End_]) ++ [x07])) <= 4096 /\
  Read (NewReader (map (fun cs => wire (map Cookie_ cs)) css ++
                   [wire (map Cookie_ last ++ [End_]) ++ [x07]])) Data0 =
  Some (None,
        set_Cookie Data0 (Cookie Data0 ++ concat css ++ last),
        mkReader [x07] []).
Proof.
  assert (F : Forall (fun cs =>
                        Z.of_nat (length (wire (map Cookie_ cs))) <= 4096)
                     [[[xaa; xbb]; []]; []; [[x01]]])
    by (repeat constructor; vm_compute; discriminate).
  assert (L : Z.of_nat (length (wire (map Cookie_ [[xaa; xbb]] ++ [End_])
                                ++ [x07])) <= 4096)
    by (vm_compute; discriminate).
  split; [exact F|]. split; [exact L|].
  exact (Read_cookies_accumulate
           [[[xaa; xbb]; []]; []; [[x01]]] [[xaa; xbb]] [x07] Data0 F L).
Defined.

(** ** Cookie records that arrive whole but not at once *)

(** C8.  Two streams of one Cookie record followed by the End of
    Message record, every byte of which arrives.  In the first the
    record, 00 05 00 02 aa bb, is cut by the connection after aa:
    [reader.Read(cookie)] returns the one byte that is buffered, the
    cookie appended is aa 00, the byte bb starts the next header, and
    [Read] returns the unknown-record error.  In the second a cookie of
    5000 bytes arrives with its header and the End record in a single
    delivery: bufio buffers 4096 bytes, [reader.Read(cookie)] returns
    the 4092 that follow the header, the cookie appended ends in 908
    zeros, its last 908 bytes are taken for headers, and [Read] returns
    the unknown-record error.  In neither case is the cookie of the
    data the body that was sent. *)
Theorem Read_cookie_split_delivery :
  wire [Cookie_ [xaa; xbb]; End_] =
    [x00; x05; x00; x02; xaa] ++ [xbb; x80; x00; x00; x00] /\
  Read (NewReader [[x00; x05; x00; x02; xaa]; [xbb; x80; x00; x00; x00]])
       Data0 =
    Some (Some (ErrUnknownRecord 15232), set_Cookie Data0 [[xaa; x00]],
          mkReader [x00] []) /\
  Read (NewReader [wire [Cookie_ (repeat xaa (Z.to_nat 5000)); End_]]) Data0 =
    Some (Some (ErrUnknownRecord 10922),
          set_Cookie Data0 [repeat xaa (Z.to_nat 4092) ++
                            repeat x00 (Z.to_nat 908)],
          mkReader (repeat xaa (Z.to_nat 904) ++ wire [End_]) []).
Proof. repeat split; vm_compute; reflexivity. Qed.

(** ** Short reads of a cookie body *)

(** C1.  A Cookie record whose header declares eight bytes, of which
    the connection delivers four with the header and four later, and no
    End of Message record.  [reader.Read(cookie)] returns the four bytes
    that are there and no error, so the cookie, four bytes and four
    zeros, is appended, the other four bytes of the body are taken for
    the next header, here one of type End of Message, and [Read]
    returns [nil].  When the connection ends after two of four declared
    bytes, the half-filled cookie is appended as well, and the error
    comes only from the next header read. *)
Theorem Read_cookie_short_read :
  Read (NewReader [[x00; x05; x00; x08; xaa; xbb; xcc; xdd];
                   [x80; x00; x00; x00]]) Data0 =
    Some (None,
          set_Cookie Data0 [[xaa; xbb; xcc; xdd; x00; x00; x00; x00]],
          mkReader [] []) /\
  Read (NewReader [[x00; x05; x00; x04; xaa; xbb]]) Data0 =
    Some (Some EOF, set_Cookie Data0 [[xaa; xbb; x00; x00]], mkReader [] []).
Proof. split; vm_compute; reflexivity. Qed.

(** The same for any cookie: when the buffer holds [k] bytes of the
    [n] the header declares, [0 < k < n], the turn goes on with a
    cookie of those [k] bytes and [n - k] zeros. *)
Lemma Read_turn_cookie_short (r : Reader) (d : Data) (n : Z)
  (p : list byte) (src : list (list byte)) :
  0 <= n < 65536 -> p <> [] -> (length p < Z.to_nat n)%nat ->
  binary_Read 4 r = Some (inr ([x00; x05] ++ PutUint16 n), mkReader p src) ->
  Read_turn r d =
  Some (inr (mkReader [] src,
             set_Cookie d (Cookie d ++
                           [p ++ repeat x00 (Z.to_nat n - length p)]))).
Proof.
  intros Hn Hp Hlen B. unfold Read_turn. rewrite B.
  cbv beta zeta. cbn [Type_ BodyLen app firstn skipn].
  rewrite <- (app_nil_r (PutUint16 n)), Uint16_PutUint16 by exact Hn.
  change (Z.ldiff (Uint16 [x00; x05]) (Z.shiftl 1 15) =? RecEom) with false.
  change (Z.ldiff (Uint16 [x00; x05]) (Z.shiftl 1 15) =? RecNextproto)
    with false.
  change (Z.ldiff (Uint16 [x00; x05]) (Z.shiftl 1 15) =? RecAead) with false.
  change (Z.ldiff (Uint16 [x00; x05]) (Z.shiftl 1 15) =? RecCookie) with true.
  cbv iota. unfold Reader_Read. cbn [buffered rd].
  destruct (Z.to_nat n) as [|m] eqn:E; [lia|].
  destruct p as [|x p]; [congruence|].
  rewrite firstn_all2, skipn_all2 by (simpl in *; lia). reflexivity.
Qed.

(** ** Records of fixed size *)

(** C5, as the code has it.  After a header of type NextProtocol, AEAD
    or Port, with two bytes or more to come, the turn takes exactly two
    bytes whatever body length the header declares: it goes on, the
    reader stands two bytes after the header, and the two bytes, read
    big-endian, are the algorithm (AEAD), the port (Port) or are
    dropped (NextProtocol). *)
Theorem Read_turn_fixed_size
  (r : Reader) (d : Data) (hdr v rest : list byte) :
  length hdr = 4%nat ->
  In (type_code hdr) [RecNextproto; RecAead; RecPort] ->
  length v = 2%nat ->
  remaining r = hdr ++ v ++ rest ->
  exists r',
    Read_turn r d =
      Some (inr (r',
                 if type_code hdr =? RecAead then set_Algo d (Uint16 v)
                 else if type_code hdr =? RecPort then set_Port d (Uint16 v)
                 else d)) /\
    remaining r' = rest.
Proof.
  intros L T Lv E.
  destruct (binary_Read_ok 4 r hdr _ E L) as (r1 & B1 & R1).
  destruct (binary_Read_ok 2 r1 v _ R1 Lv) as (r2 & B2 & R2).
  exists r2. split; [|exact R2].
  unfold Read_turn. rewrite B1.
  cbv beta zeta. cbn [Type_ BodyLen].
  fold (header_type hdr). fold (type_code hdr).
  destruct T as [<-|[<-|[<-|[]]]]; cbn; rewrite B2; reflexivity.
Qed.

Lemma Read_turn_fixed_size_witness :
  let r := NewReader [[x00; x07; x00; x04; x10; x1b; x00; x00]] in
  let hdr := [x00; x07; x00; x04] in
  length hdr = 4%nat /\
  In (type_code hdr) [RecNextproto; RecAead; RecPort] /\
  length [x10; x1b] = 2%nat /\
  remaining r = hdr ++ [x10; x1b] ++ [x00; x00] /\
  exists r',
    Read_turn r Data0 =
      Some (inr (r',
                 if type_code hdr =? RecAead
                 then set_Algo Data0 (Uint16 [x10; x1b])
                 else if type_code hdr =? RecPort
                      then set_Port Data0 (Uint16 [x10; x1b])
                      else Data0)) /\
    remaining r' = [x00; x00].
Proof.
  assert (T : In (type_code [x00; x07; x00; x04])
                 [RecNextproto; RecAead; RecPort])
    by (right; right; left; reflexivity).
  repeat split; try reflexivity; try exact T.
  apply (Read_turn_fixed_size
           (NewReader [[x00; x07; x00; x04; x10; x1b; x00; x00]]) Data0
           [x00; x07; x00; x04] [x10; x1b] [x00; x00]);
    try reflexivity; exact T.
Defined.

(** A Port record that declares a body of four bytes is taken as one
    of two: the port is set from the first two, and the other two start
    the next header, here one of type End of Message. *)
Lemma Read_port_length_ignored :
  Read (NewReader [[x00; x07; x00; x04; x10; x1b; x00; x00;
                    x80; x00; x00; x00]]) Data0 =
  Some (None, set_Port Data0 4123, mkReader [x00; x00] []).
Proof. vm_compute. reflexivity. Qed.

(** ** How the loop ends *)



(** ** The message of the client *)

(** C7.  Packing NextProtocol(0), the AEAD list [0x0f] and End, in
    this order, gives 80 01 00 02 00 00, 80 04 00 02 00 0f,
    80 00 00 00; this is the message [ExchangeTCP] sends. *)
Theorem Pack_client_message :
  Pack [NextProto 0; Algorithm [0x0f]; End_] =
    inr [x80; x01; x00; x02; x00; x00;
         x80; x04; x00; x02; x00; x0f;
         x80; x00; x00; x00] /\
  ExchangeTCP_msg = [NextProto 0; Algorithm [0x0f]; End_].
Proof. split; vm_compute; reflexivity. Qed.

(** The scenario of the design document, the server in one delivery
    and the rest in another. *)
Example Read_scenario :
  Read (NewReader
          [wire [Server_ (list_byte_of_string "203.0.113.5") false];
           wire [Port_ 4123 false; Cookie_ [xaa; xbb]; End_]])
       Data0 =
  Some (None,
        mkData None None "203.0.113.5" 4123 [[xaa; xbb]] 0,
        mkReader [] []).
Proof. vm_compute. reflexivity. Qed.

(** ** Key export *)

(** With the second export failing, [ExportKeys] returns the error and
    the server-to-client key stays in the data. *)
Lemma ExportKeys_partial :
  ExportKeys half_exporter Data0 =
  (Some (ErrOther "export failed"), set_S2cKey Data0 (Some (repeat x2a 32))) /\
  S2cKey (snd (ExportKeys half_exporter Data0)) <> None.
Proof. split; [vm_compute; reflexivity|vm_compute; discriminate]. Qed.

(** C2, as the code has it.  If one of the two exports fails,
    [ExportKeys] returns the error of the first that fails, and touches
    nothing but the keys.  The server-to-client field holds what the
    first call returned: after a failure of the second call that is the
    exported key.  The client-to-server field is as it was when the
    first call fails, and holds what the second call returned when
    that one fails. *)
Theorem ExportKeys_failure (cs : ConnectionState) (d : Data) :
  let r1 := ExportKeyingMaterial cs label s2cContext 32 in
  let r2 := ExportKeyingMaterial cs label c2sContext 32 in
  snd r1 <> None \/ snd r2 <> None ->
  exists e,
    fst (ExportKeys cs d) = Some e /\
    let d' := snd (ExportKeys cs d) in
    Server d' = Server d /\ Port d' = Port d /\
    Cookie d' = Cookie d /\ Algo d' = Algo d /\
    S2cKey d' = fst r1 /\
    ((snd r1 = Some e /\ C2sKey d' = C2sKey d) \/
     (snd r1 = None /\ snd r2 = Some e /\ C2sKey d' = fst r2)).
Proof.
  intros r1 r2 H. subst r1 r2. unfold ExportKeys.
  destruct (ExportKeyingMaterial cs label s2cContext 32) as [k1 [e1|]].
  - exists e1. simpl. repeat split; auto.
  - destruct (ExportKeyingMaterial cs label c2sContext 32) as [k2 [e2|]].
    + exists e2. simpl. repeat split; auto.
    + simpl in H. destruct H as [H|H]; congruence.
Qed.

Lemma ExportKeys_failure_witness :
  let cs := half_exporter in
  let r1 := ExportKeyingMaterial cs label s2cContext 32 in
  let r2 := ExportKeyingMaterial cs label c2sContext 32 in
  (snd r1 <> None \/ snd r2 <> None) /\
  exists e,
    fst (ExportKeys cs Data0) = Some e /\
    let d' := snd (ExportKeys cs Data0) in
    Server d' = Server Data0 /\ Port d' = Port Data0 /\
    Cookie d' = Cookie Data0 /\ Algo d' = Algo Data0 /\
    S2cKey d' = fst r1 /\
    ((snd r1 = Some e /\ C2sKey d' = C2sKey Data0) \/
     (snd r1 = None /\ snd r2 = Some e /\ C2sKey d' = fst r2)).
Proof.
  assert (H : snd (ExportKeyingMaterial half_exporter label s2cContext 32)
              <> None \/
              snd (ExportKeyingMaterial half_exporter label c2sContext 32)
              <> None)
    by (right; vm_compute; discriminate).
  split; [exact H|].
  exact (ExportKeys_failure half_exporter Data0 H).
Defined.

(** ** Connections *)

(** C9.  Whatever TLS connection the listener hands out,
    [NewTCPListener] returns it; the protocol it negotiated is not
    looked at, so a connection that negotiated another protocol than
    "ntske/1", or none, is returned like any other. *)
Theorem NewTCPListener_accepts_any_protocol (c : tlsConn) :
  NewTCPListener (mkListener (inr (IsTLS c))) = inr c /\
  NewTCPListener
    (mkListener
       (inr (IsTLS (mkConn (RemoteAddr c)
                           (mkState "http/1.1"
                              (ExportKeyingMaterial (ConnectionState_ c)))))))
  = inr (mkConn (RemoteAddr c)
                (mkState "http/1.1"
                   (ExportKeyingMaterial (ConnectionState_ c)))).
Proof. split; reflexivity. Qed.

Section Net_properties.

Variable SplitHostPort : string -> string + string * string.
Variable JoinHostPort : string -> string -> string.
Variable DialWithDialer : string -> string -> Config -> error + tlsConn.

(** C10.  Whatever [ConnectTCP] returns, a connection or an error,
    the configuration of the caller has afterwards "ntske/1" as its
    only protocol and its other fields as before; the list the caller
    had set plays no part: with any other list in its place, dialing
    included, the outcome is the same. *)
Theorem ConnectTCP_overwrites_NextProtos (hostport : string) (config : Config) :
  let out := ConnectTCP SplitHostPort JoinHostPort DialWithDialer
                        hostport config in
  NextProtos (fst out) = ["ntske/1"%string] /\
  ServerName (fst out) = ServerName config /\
  InsecureSkipVerify (fst out) = InsecureSkipVerify config /\
  forall protos,
    ConnectTCP SplitHostPort JoinHostPort DialWithDialer
               hostport (set_NextProtos config protos) = out.
Proof. repeat split. Qed.

End Net_properties.

(** A host without port that cannot be reached: [ConnectTCP] returns
    the error of the dialer, and the list of the caller is gone. *)
Example ConnectTCP_error_keeps_mutation :
  ConnectTCP
    (fun _ => inl "address ke.example: missing port in address"%string)
    (fun h p => (h ++ ":" ++ p)%string)
    (fun _ _ _ => inl (ErrOther "dial tcp: i/o timeout"))
    "ke.example" (mkConfig ["h2"%string; "http/1.1"%string] "ke.example" false)
  = (mkConfig ["ntske/1"%string] "ke.example" false,
     inl (ErrOther "dial tcp: i/o timeout")).
Proof. vm_compute. reflexivity. Qed.

(** * Further properties of the package *)

(** ** Bits, words and bytes *)

Lemma Z_of_byte_range (b : byte) : 0 <= Z_of_byte b < 256.
Proof.
  unfold Z_of_byte. pose proof (Byte.to_N_bounded b). lia.
Qed.

Lemma byte_of_Z_of_byte (b : byte) : byte_of_Z (Z_of_byte b) = b.
Proof.
  unfold byte_of_Z. pose proof (Z_of_byte_range b) as R.
  rewrite Z.mod_small by exact R. unfold Z_of_byte.
  rewrite N2Z.id, Byte.of_to_N. reflexivity.
Qed.

Lemma testbit_small (a n k : Z) :
  0 <= a < 2 ^ k -> k <= n -> Z.testbit a n = false.
Proof.
  intros Ha Hn. destruct (Z.eq_dec a 0) as [->|Hz].
  - apply Z.bits_0.
  - apply Z.bits_above_log2; [lia|].
    apply Z.lt_le_trans with k; [|exact Hn].
    apply Z.log2_lt_pow2; lia.
Qed.

Lemma word_of_bytes (lo hi : Z) :
  0 <= lo < 256 -> 0 <= hi < 256 ->
  Z.shiftr (Z.lor lo (Z.shiftl hi 8)) 8 = hi /\
  Z.lor lo (Z.shiftl hi 8) mod 256 = lo /\
  0 <= Z.lor lo (Z.shiftl hi 8) < 65536.
Proof.
  intros Hlo Hhi. split; [|split].
  - apply Z.bits_inj'. intros n Hn.
    rewrite Z.shiftr_spec, Z.lor_spec, Z.shiftl_spec by lia.
    rewrite (testbit_small lo (n + 8) 8) by (simpl; lia).
    simpl. f_equal. lia.
  - change 256 with (2 ^ 8). apply Z.bits_inj'. intros n Hn.
    destruct (Z.lt_ge_cases n 8) as [L|L].
    + rewrite Z.mod_pow2_bits_low by lia.
      rewrite Z.lor_spec, Z.shiftl_spec_low by lia.
      apply orb_false_r.
    + rewrite Z.mod_pow2_bits_high by lia.
      symmetry. apply (testbit_small lo n 8); simpl; lia.
  - rewrite Z.shiftl_mul_pow2 by lia. change (2 ^ 8) with 256.
    assert (D : Z.land lo (hi * 256) = 0).
    { apply Z.bits_inj'. intros n Hn. rewrite Z.land_spec, Z.bits_0.
      destruct (Z.lt_ge_cases n 8) as [L|L].
      - change 256 with (2 ^ 8). rewrite Z.mul_pow2_bits_low by lia.
        apply andb_false_r.
      - rewrite (testbit_small lo n 8) by (simpl; lia). reflexivity. }
    rewrite <- Z.lxor_lor, <- Z.add_nocarry_lxor by exact D. lia.
Qed.

(** X1.  [PutUint16] and [Uint16] are inverse to each other: a word
    written and read back is the word modulo 2^16, and two bytes read
    and written back are the two bytes. *)
Theorem Uint16_roundtrip (v : Z) (b0 b1 : byte) (rest : list byte) :
  Uint16 (PutUint16 v ++ rest) = to_uint16 v /\
  PutUint16 (Uint16 (b0 :: b1 :: rest)) = [b0; b1] /\
  0 <= Uint16 (b0 :: b1 :: rest) < 65536.
Proof.
  split; [|split].
  - unfold to_uint16.
    assert (R : 0 <= v mod 65536 < 65536) by (apply Z.mod_pos_bound; lia).
    transitivity (Uint16 (PutUint16 (v mod 65536) ++ rest));
      [|apply Uint16_PutUint16; exact R].
    f_equal. f_equal. unfold PutUint16, byte_of_Z.
    rewrite !Z.shiftr_div_pow2 by lia. change (2 ^ 8) with 256.
    replace (v mod 65536 / 256 mod 256) with (v / 256 mod 256)
      by (Z.div_mod_to_equations; lia).
    replace (v mod 65536 mod 256) with (v mod 256)
      by (Z.div_mod_to_equations; lia).
    reflexivity.
  - unfold Uint16, PutUint16.
    destruct (word_of_bytes (Z_of_byte b1) (Z_of_byte b0)
                (Z_of_byte_range b1) (Z_of_byte_range b0)) as (H1 & H2 & _).
    rewrite H1. unfold byte_of_Z at 2. rewrite H2.
    fold (byte_of_Z (Z_of_byte b1)) .
    replace (match Byte.of_N (Z.to_N (Z_of_byte b1)) with
             | Some b => b | None => x00 end) with b1.
    + rewrite byte_of_Z_of_byte. reflexivity.
    + unfold Z_of_byte. rewrite N2Z.id, Byte.of_to_N. reflexivity.
  - unfold Uint16.
    apply (word_of_bytes (Z_of_byte b1) (Z_of_byte b0)
             (Z_of_byte_range b1) (Z_of_byte_range b0)).
Qed.

Lemma bit15 (t : Z) : 0 <= t < 32768 -> Z.testbit t 15 = false.
Proof. intros H. apply (testbit_small t 15 15); simpl; lia. Qed.

(** X2.  The critical bit and the type code do not disturb each other.
    For a type code below 2^15, [setBit] at 15 gives a 16-bit word in
    which [hasBit] finds the bit, and clearing the bit as [Read] does
    gives the type code back; in the type code itself [hasBit] finds no
    bit, and clearing changes nothing. *)
Theorem critical_bit_roundtrip (t : Z) :
  0 <= t < 32768 ->
  hasBit (setBit t 15) 15 = true /\
  Z.ldiff (setBit t 15) (Z.shiftl 1 15) = t /\
  0 <= setBit t 15 < 65536 /\
  hasBit t 15 = false /\
  Z.ldiff t (Z.shiftl 1 15) = t.
Proof.
  intros Ht. pose proof (bit15 t Ht) as B.
  unfold setBit, hasBit.
  change (to_uint16 (Z.shiftl 1 15)) with (2 ^ 15).
  change (Z.shiftl 1 15) with (2 ^ 15).
  assert (D : Z.land t (2 ^ 15) = 0).
  { apply Z.bits_inj'. intros n Hn.
    rewrite Z.land_spec, Z.bits_0, Z.pow2_bits_eqb by lia.
    destruct (Z.eqb_spec 15 n) as [<-|]; [rewrite B|]; auto using andb_false_r. }
  assert (L : Z.lor t (2 ^ 15) = t + 32768).
  { rewrite <- Z.lxor_lor, <- Z.add_nocarry_lxor by exact D. reflexivity. }
  assert (K : Z.ldiff t (2 ^ 15) = t).
  { apply Z.bits_inj'. intros n Hn.
    rewrite Z.ldiff_spec, Z.pow2_bits_eqb by lia.
    destruct (Z.eqb_spec 15 n) as [<-|]; [rewrite B|]; auto using andb_true_r. }
  repeat split.
  - replace (Z.land (Z.lor t (2 ^ 15)) (2 ^ 15)) with (2 ^ 15); [reflexivity|].
    apply Z.bits_inj'. intros n Hn.
    rewrite Z.land_spec, Z.lor_spec, Z.pow2_bits_eqb by lia.
    destruct (15 =? n); destruct (Z.testbit t n); reflexivity.
  - rewrite <- K at 2. apply Z.bits_inj'. intros n Hn.
    rewrite !Z.ldiff_spec, Z.lor_spec, Z.pow2_bits_eqb by lia.
    destruct (15 =? n); destruct (Z.testbit t n); reflexivity.
  - lia.
  - lia.
  - rewrite D. reflexivity.
  - exact K.
Qed.

Lemma critical_bit_roundtrip_witness :
  0 <= RecServer < 32768 /\
  hasBit (setBit RecServer 15) 15 = true /\
  Z.ldiff (setBit RecServer 15) (Z.shiftl 1 15) = RecServer /\
  0 <= setBit RecServer 15 < 65536 /\
  hasBit RecServer 15 = false /\
  Z.ldiff RecServer (Z.shiftl 1 15) = RecServer.
Proof.
  assert (H : 0 <= RecServer < 32768) by (unfold RecServer; lia).
  split; [exact H|]. exact (critical_bit_roundtrip RecServer H).
Defined.

(** ** What [pack] writes, read as [Read] reads a header *)

Lemma wire_layout (r : Record_) :
  wire [r] =
  PutUint16 (if record_critical r then setBit (record_type r) 15
             else record_type r) ++
  PutUint16 (to_uint16 (Z.of_nat (length (payload r)))) ++ payload r.
Proof.
  unfold wire, Pack. cbn [Pack_loop].
  destruct r; cbn; try destruct critical; reflexivity.
Qed.

Lemma wire_header (r : Record_) :
  let hdr := firstn 4 (wire [r]) in
  length hdr = 4%nat /\
  skipn 4 (wire [r]) = payload r /\
  type_code hdr = record_type r /\
  hasBit (header_type hdr) 15 = record_critical r /\
  Uint16 (skipn 2 hdr) = Z.of_nat (length (payload r)) mod 65536.
Proof.
  cbv zeta. rewrite wire_layout.
  set (t := if record_critical r then _ else _).
  set (n := to_uint16 _).
  change (PutUint16 t ++ PutUint16 n ++ payload r)
    with ([byte_of_Z (Z.shiftr t 8); byte_of_Z t;
           byte_of_Z (Z.shiftr n 8); byte_of_Z n] ++ payload r).
  cbn [firstn skipn app length].
  split; [reflexivity|]. split; [reflexivity|].
  unfold type_code, header_type. cbn [firstn skipn].
  split; [|split].
  - subst t. destruct r; try destruct critical; reflexivity.
  - subst t. destruct r; try destruct critical; reflexivity.
  - change [byte_of_Z (Z.shiftr n 8); byte_of_Z n] with (PutUint16 n ++ []).
    subst n. unfold to_uint16.
    apply Uint16_PutUint16. apply Z.mod_pos_bound. lia.
Qed.


(** X3.  Every record is packed as a header of four bytes followed by
    its payload.  Read as [Read] reads it, the header gives the type
    code of the record, the critical bit the record type sends
    (always for NextProtocol, End, Warning, Error and the AEAD list,
    never for Cookie, the flag of the record for Server and Port), and
    as body length the length of the payload modulo 2^16. *)
Theorem pack_header (r : Record_) :
  let hdr := firstn 4 (wire [r]) in
  length hdr = 4%nat /\
  skipn 4 (wire [r]) = payload r /\
  type_code hdr = record_type r /\
  hasBit (header_type hdr) 15 = record_critical r /\
  Uint16 (skipn 2 hdr) = Z.of_nat (length (payload r)) mod 65536.
Proof. exact (wire_header r). Qed.


(** ** Records that are read as they were sent *)

Lemma wire_split (r : Record_) :
  wire [r] = firstn 4 (wire [r]) ++ payload r.
Proof.
  destruct (wire_header r) as (_ & H & _).
  rewrite <- H. symmetry. apply firstn_skipn.
Qed.

Lemma binary_Read_0 (b : Reader) : binary_Read 0 b = Some (inr [], b).
Proof. reflexivity. Qed.

Lemma binary_Read_buffered_any (h rest : list byte) (src : list (list byte)) :
  binary_Read (length h) (mkReader (h ++ rest) src) =
  Some (inr h, mkReader rest src).
Proof.
  destruct h as [|x h]; [apply binary_Read_0|].
  apply binary_Read_buffered. discriminate.
Qed.

(** The turn on a record that is not a cookie, given the reads of its
    header and of its payload. *)
Lemma Read_turn_plain (rec : Record_) (r r1 r2 : Reader) (d : Data) :
  decodable rec -> is_Cookie rec = false ->
  binary_Read 4 r = Some (inr (firstn 4 (wire [rec])), r1) ->
  binary_Read (length (payload rec)) r1 = Some (inr (payload rec), r2) ->
  Read_turn r d = Some (inr (r2, apply_record rec d)).
Proof.
  intros D C B1 B2. unfold Read_turn. rewrite B1.
  cbv beta zeta. cbn [Type_ BodyLen].
  fold (header_type (firstn 4 (wire [rec]))).
  fold (type_code (firstn 4 (wire [rec]))).
  destruct (wire_header rec) as (_ & _ & T & _ & L).
  cbv zeta in T, L. rewrite T, L.
  destruct rec as [n| |addr c|p c|ck|code|code|[|a [|a' al]]];
    cbn in D, C; try contradiction; try discriminate;
    cbn [record_type payload encode length] in *.
  - change (RecNextproto =? RecEom) with false.
    change (RecNextproto =? RecNextproto) with true.
    cbv iota. change (length (PutUint16 n)) with 2%nat in B2.
    rewrite B2. reflexivity.
  - change (RecServer =? RecEom) with false.
    change (RecServer =? RecNextproto) with false.
    change (RecServer =? RecAead) with false.
    change (RecServer =? RecCookie) with false.
    change (RecServer =? RecServer) with true.
    cbv iota. rewrite Z.mod_small, Nat2Z.id by lia.
    rewrite B2. reflexivity.
  - change (RecPort =? RecEom) with false.
    change (RecPort =? RecNextproto) with false.
    change (RecPort =? RecAead) with false.
    change (RecPort =? RecCookie) with false.
    change (RecPort =? RecServer) with false.
    change (RecPort =? RecPort) with true.
    cbv iota. change (length (PutUint16 p)) with 2%nat in B2.
    rewrite B2.
    rewrite <- (app_nil_r (PutUint16 p)), Uint16_PutUint16 by exact D.
    reflexivity.
  - change (RecAead =? RecEom) with false.
    change (RecAead =? RecNextproto) with false.
    change (RecAead =? RecAead) with true.
    cbv iota. cbn [flat_map] in B2. rewrite app_nil_r in B2.
    change (length (PutUint16 a)) with 2%nat in B2.
    rewrite B2.
    rewrite <- (app_nil_r (PutUint16 a)), Uint16_PutUint16 by exact D.
    reflexivity.
Qed.

Lemma Read_message_any (m : list Record_) :
  forall (r : Reader) (d : Data) (rest : list byte),
    Forall decodable m ->
    Forall (fun rec => is_Cookie rec = false) m ->
    remaining r = wire m ++ rest ->
    exists r', Read r d = Read r' (decode m d) /\ remaining r' = rest.
Proof.
  induction m as [|rec m IH]; intros r d rest D C E.
  - exists r. split; [reflexivity|exact E].
  - inversion D as [|? ? D1 D2]; inversion C as [|? ? C1 C2]; subst.
    rewrite wire_cons, wire_split, <- !app_assoc in E.
    destruct (wire_header rec) as (L & _).
    destruct (binary_Read_ok 4 r _ _ E L) as (r1 & B1 & R1).
    destruct (binary_Read_ok _ r1 _ _ R1 eq_refl) as (r2 & B2 & R2).
    destruct (IH r2 (apply_record rec d) rest D2 C2 R2) as (r' & E' & R').
    exists r'. split; [|exact R'].
    rewrite Read_unfold, (Read_turn_plain rec r r1 r2 d D1 C1 B1 B2).
    exact E'.
Qed.

Lemma Read_message_buffered (m : list Record_) :
  forall (rest : list byte) (src : list (list byte)) (d : Data),
    Forall decodable m ->
    Read (mkReader (wire m ++ rest) src) d =
    Read (mkReader rest src) (decode m d).
Proof.
  induction m as [|rec m IH]; intros rest src d D; [reflexivity|].
  inversion D as [|? ? D1 D2]; subst.
  rewrite wire_cons, <- app_assoc. cbn [decode fold_left].
  fold (decode m (apply_record rec d)). rewrite <- (IH rest src _ D2).
  rewrite Read_unfold.
  destruct (is_Cookie rec) eqn:C.
  - destruct rec; try discriminate. cbn in D1.
    rewrite Read_turn_cookie_buffered by exact D1. reflexivity.
  - rewrite wire_split, <- app_assoc.
    destruct (wire_header rec) as (L & _).
    rewrite (Read_turn_plain rec _
               (mkReader (payload rec ++ wire m ++ rest) src)
               (mkReader (wire m ++ rest) src) d D1 C).
    + reflexivity.
    + rewrite <- L at 1. apply binary_Read_buffered_any.
    + apply binary_Read_buffered_any.
Qed.

(** A first delivery of four bytes or more that fits the buffer is
    read as if it were buffered already. *)
Lemma Read_fill (chunk : list byte) (src : list (list byte)) (d : Data) :
  (4 <= length chunk <= defaultBufSize)%nat ->
  Read (mkReader [] (chunk :: src)) d = Read (mkReader chunk src) d.
Proof.
  intros H.
  rewrite (Read_unfold (mkReader [] _)), (Read_unfold (mkReader chunk _)).
  unfold Read_turn.
  assert (L : length (firstn 4 chunk) = 4%nat)
    by (rewrite length_firstn; lia).
  assert (Hc : chunk = firstn 4 chunk ++ skipn 4 chunk)
    by (symmetry; apply firstn_skipn).
  remember (firstn 4 chunk) as h eqn:Eh.
  remember (skipn 4 chunk) as t eqn:Et.
  assert (N : h <> []) by (intros N; rewrite N in L; discriminate).
  rewrite Hc in H |- *.
  rewrite <- L.
  rewrite binary_Read_fill, binary_Read_buffered by (try exact N; lia).
  reflexivity.
Qed.

Lemma Read_Pack_any
  (conn : list (list byte)) (m : list Record_) (tail : list byte) (d : Data) :
  Forall decodable m ->
  Forall (fun rec => is_Cookie rec = false) m ->
  concat conn = wire (m ++ [End_]) ++ tail ->
  exists r',
    Read (NewReader conn) d = Some (None, decode m d, r') /\
    remaining r' = tail.
Proof.
  intros D C E. rewrite wire_app, <- app_assoc in E.
  destruct (Read_message_any m (NewReader conn) d _ D C E) as (r1 & E1 & R1).
  destruct (binary_Read_ok 4 r1 (wire [End_]) tail R1 eq_refl)
    as (r2 & B2 & R2).
  exists r2. split; [|exact R2].
  rewrite E1, Read_unfold.
  rewrite (Read_turn_eom _ r2 _ _ B2); reflexivity.
Qed.

(** X5.  A message of records that [Read] has a case for, none of them
    a cookie, packed and followed by the End record, is read back
    whatever way the connection cuts the bytes up: [Read] returns
    [nil], the data is what the records make of it one after the
    other (a Server record sets the server, a Port record the port, an
    AEAD record the algorithm, a NextProtocol record nothing), and what
    follows the End record is left unread. *)
Theorem Read_Pack_roundtrip
  (conn : list (list byte)) (m : list Record_) (tail : list byte) (d : Data) :
  Forall decodable m ->
  Forall (fun rec => is_Cookie rec = false) m ->
  concat conn = wire (m ++ [End_]) ++ tail ->
  exists r',
    Read (NewReader conn) d = Some (None, decode m d, r') /\
    remaining r' = tail.
Proof. apply Read_Pack_any. Qed.

Lemma Read_Pack_roundtrip_witness :
  let m := [NextProto 0; Algorithm [15];
            Server_ (list_byte_of_string "192.0.2.1") false;
            Server_ (list_byte_of_string "ntp.example") true;
            Port_ 4123 false; Port_ 123 true] in
  let conn := [firstn 5 (wire (m ++ [End_]));
               skipn 5 (wire (m ++ [End_])) ++ [xff]] in
  Forall decodable m /\
  Forall (fun rec => is_Cookie rec = false) m /\
  concat conn = wire (m ++ [End_]) ++ [xff] /\
  exists r',
    Read (NewReader conn) Data0 = Some (None, decode m Data0, r') /\
    remaining r' = [xff].
Proof.
  cbv zeta.
  assert (D : Forall decodable
                [NextProto 0; Algorithm [15];
                 Server_ (list_byte_of_string "192.0.2.1") false;
                 Server_ (list_byte_of_string "ntp.example") true;
                 Port_ 4123 false; Port_ 123 true])
    by (repeat constructor; simpl; lia).
  assert (C : Forall (fun rec => is_Cookie rec = false)
                [NextProto 0; Algorithm [15];
                 Server_ (list_byte_of_string "192.0.2.1") false;
                 Server_ (list_byte_of_string "ntp.example") true;
                 Port_ 4123 false; Port_ 123 true])
    by (repeat constructor).
  split; [exact D|]. split; [exact C|]. split; [reflexivity|].
  apply (Read_Pack_roundtrip _ _ [xff] Data0 D C). reflexivity.
Defined.

Lemma Read_Pack_one
  (m : list Record_) (tail : list byte) (src : list (list byte)) (d : Data) :
  Forall decodable m ->
  Z.of_nat (length (wire (m ++ [End_]) ++ tail)) <= 4096 ->
  Read (NewReader ((wire (m ++ [End_]) ++ tail) :: src)) d =
  Some (None, decode m d, mkReader tail src).
Proof.
  intros D L. pose proof defaultBufSize_eq as HB. unfold NewReader.
  rewrite Read_fill.
  - rewrite wire_app, <- app_assoc.
    rewrite Read_message_buffered by exact D.
    apply Read_eom_buffered.
  - rewrite wire_app, !length_app in *.
    change (length (wire [End_])) with 4%nat in *. lia.
Qed.

(** X6.  A message of records that [Read] has a case for, cookies
    among them, packed, followed by the End record and delivered by the
    connection in one piece of at most 4096 bytes, is read back: [Read]
    returns [nil] with the data as the records make it, each cookie
    appended, and leaves what follows the End record in the reader and
    the later deliveries with the connection. *)
Theorem Read_Pack_roundtrip_one_delivery
  (m : list Record_) (tail : list byte) (src : list (list byte)) (d : Data) :
  Forall decodable m ->
  Z.of_nat (length (wire (m ++ [End_]) ++ tail)) <= 4096 ->
  Read (NewReader ((wire (m ++ [End_]) ++ tail) :: src)) d =
  Some (None, decode m d, mkReader tail src).
Proof. apply Read_Pack_one. Qed.

Lemma Read_Pack_roundtrip_one_delivery_witness :
  let m := [NextProto 0; Algorithm [15]; Cookie_ [xaa; xbb]; Cookie_ [];
            Server_ (list_byte_of_string "192.0.2.1") false;
            Cookie_ [xaa; xbb]; Port_ 4123 false] in
  Forall decodable m /\
  Z.of_nat (length (wire (m ++ [End_]) ++ [xff])) <= 4096 /\
  Read (NewReader ((wire (m ++ [End_]) ++ [xff]) :: [[x01]])) Data0 =
  Some (None, decode m Data0, mkReader [xff] [[x01]]).
Proof.
  cbv zeta.
  assert (D : Forall decodable
                [NextProto 0; Algorithm [15]; Cookie_ [xaa; xbb]; Cookie_ [];
                 Server_ (list_byte_of_string "192.0.2.1") false;
                 Cookie_ [xaa; xbb]; Port_ 4123 false])
    by (repeat constructor; simpl; lia).
  split; [exact D|]. split; [vm_compute; discriminate|].
  apply (Read_Pack_roundtrip_one_delivery _ [xff] [[x01]] Data0 D).
  vm_compute. discriminate.
Defined.

(** ** What [Read] leaves alone *)

Lemma Read_turn_frame (r : Reader) (d : Data) out :
  Read_turn r d = Some out ->
  match out with
  | inl (_, d', _) => d' = d
  | inr (_, d') =>
      C2sKey d' = C2sKey d /\ S2cKey d' = S2cKey d /\
      exists cs, Cookie d' = Cookie d ++ cs
  end.
Proof.
  unfold Read_turn.
  repeat match goal with
  | |- context [match ?x with _ => _ end] => destruct x eqn:?
  end;
  intros H; inversion H; subst; simpl; auto;
    repeat split; auto; try (exists []; rewrite app_nil_r; reflexivity);
    eexists; reflexivity.
Qed.

Lemma Read_frame_from (n : nat) :
  forall r d,
    (length (remaining r) < n)%nat ->
    exists err d' r' cs,
      Read r d = Some (err, d', r') /\
      C2sKey d' = C2sKey d /\ S2cKey d' = S2cKey d /\
      Cookie d' = Cookie d ++ cs.
Proof.
  induction n as [|n IH]; intros r d Hn; [lia|].
  rewrite Read_unfold.
  destruct (Read_turn_spec r d) as (out & E & S). rewrite E.
  pose proof (Read_turn_frame r d out E) as F.
  destruct out as [[[err d'] r']|[r1 d1]].
  - subst d'. exists err, d, r', []. rewrite app_nil_r. auto.
  - destruct S as (u & S1 & S2). destruct F as (F1 & F2 & cs1 & F3).
    destruct (IH r1 d1) as (err & d' & r' & cs2 & R & G1 & G2 & G3).
    { rewrite S1, length_app in Hn. lia. }
    exists err, d', r', (cs1 ++ cs2). split; [exact R|].
    rewrite G1, G2, G3, F1, F2, F3, app_assoc. auto.
Qed.

(** X7.  On every stream, whether it returns [nil] or an error, [Read]
    leaves the two keys of the data as they were and only ever appends
    to the cookies: the cookies it was given are still there, first and
    in order. *)
Theorem Read_keeps_keys_and_cookies (conn : list (list byte)) (d : Data) :
  exists err d' r' cs,
    Read (NewReader conn) d = Some (err, d', r') /\
    C2sKey d' = C2sKey d /\ S2cKey d' = S2cKey d /\
    Cookie d' = Cookie d ++ cs.
Proof.
  apply (Read_frame_from (S (length (remaining (NewReader conn))))). lia.
Qed.

(** ** Streams that give out *)

Lemma binary_Read_short (size : nat) (b : Reader) :
  (length (remaining b) < size)%nat ->
  exists b',
    binary_Read size b =
      Some (inl (match remaining b with
                 | [] => EOF
                 | _ :: _ => ErrUnexpectedEOF
                 end), b') /\
    remaining b' = [].
Proof.
  intros Hlen. unfold binary_Read, ReadFull.
  assert (H0 : (length (@nil byte) <= size)%nat) by (simpl; lia).
  assert (H1 : (size - length (@nil byte) + length (rd b)
                < S (size + length (rd b)))%nat) by (simpl; lia).
  destruct (ReadAtLeast_loop_spec _ size [] b H0 H1)
    as (got & err & b' & E1 & E2 & E3).
  simpl app in E2. rewrite E1. destruct err as [e|].
  - destruct E3 as (-> & E3 & E4).
    rewrite E3, app_nil_r in E2. subst got.
    assert (L : (size <=? length (remaining b))%nat = false)
      by (apply Nat.leb_gt; lia).
    rewrite L. exists b'. split; [|exact E3].
    destruct (remaining b); reflexivity.
  - rewrite E2, length_app in Hlen. lia.
Qed.

(** X8.  A stream that ends inside the first header.  On a connection
    that delivers nothing at all [Read] returns [io.EOF]; on one that
    delivers one to three bytes it returns [io.ErrUnexpectedEOF]; the
    data is as it was. *)
Theorem Read_short_header (conn : list (list byte)) (d : Data) :
  (length (concat conn) < 4)%nat ->
  exists r',
    Read (NewReader conn) d =
      Some (Some (match concat conn with
                  | [] => EOF
                  | _ :: _ => ErrUnexpectedEOF
                  end), d, r') /\
    remaining r' = [].
Proof.
  intros H.
  destruct (binary_Read_short 4 (NewReader conn) H) as (r' & B & R).
  exists r'. split; [|exact R].
  rewrite Read_unfold. unfold Read_turn. rewrite B. reflexivity.
Qed.

Lemma Read_short_header_witness :
  (length (concat [[x80]; []; [x00; x00]]) < 4)%nat /\
  exists r',
    Read (NewReader [[x80]; []; [x00; x00]]) Data0 =
      Some (Some (match concat [[x80]; []; [x00; x00]] with
                  | [] => EOF
                  | _ :: _ => ErrUnexpectedEOF
                  end), Data0, r') /\
    remaining r' = [].
Proof.
  assert (H : (length (concat [[x80]; []; [x00; x00]]) < 4)%nat)
    by (simpl; lia).
  split; [exact H|].
  exact (Read_short_header [[x80]; []; [x00; x00]] Data0 H).
Defined.

(** X9.  A stream that ends inside the body of its first record, for
    every record but a cookie: after a header that is not End of
    Message, not Cookie and not an unrecognised critical one, with
    fewer bytes to come than the turn asks for (two for NextProtocol,
    AEAD and Port, the declared length for Server and for unrecognised
    records), [Read] returns "buffer overrun", with the data as it was
    and the stream read to its end. *)
Theorem Read_short_body
  (conn : list (list byte)) (hdr rest : list byte) (d : Data) :
  length hdr = 4%nat ->
  concat conn = hdr ++ rest ->
  type_code hdr <> RecEom ->
  type_code hdr <> RecCookie ->
  In (type_code hdr) handled \/ hasBit (header_type hdr) 15 = false ->
  (length rest < body_need hdr)%nat ->
  exists r',
    Read (NewReader conn) d = Some (Some ErrBufferOverrun, d, r') /\
    remaining r' = [].
Proof.
  intros L E T0 T5 K Hlen.
  destruct (binary_Read_ok 4 (NewReader conn) hdr rest E L) as (r1 & B & R).
  rewrite Read_unfold. unfold Read_turn. rewrite B.
  cbv beta zeta. cbn [Type_ BodyLen].
  fold (header_type hdr). fold (type_code hdr).
  unfold body_need in Hlen. rewrite <- R in Hlen.
  destruct (type_code hdr =? RecEom) eqn:E0;
    [apply Z.eqb_eq in E0; contradiction|].
  destruct (type_code hdr =? RecCookie) eqn:E5;
    [apply Z.eqb_eq in E5; contradiction|].
  assert (F : forall n, (length (remaining r1) < n)%nat ->
              exists r', binary_Read n r1 =
                           Some (inl (match remaining r1 with
                                      | [] => EOF
                                      | _ :: _ => ErrUnexpectedEOF
                                      end), r') /\ remaining r' = [])
    by (intros n; apply binary_Read_short).
  destruct (type_code hdr =? RecNextproto) eqn:E1.
  { cbn [orb] in Hlen. destruct (F _ Hlen) as (r' & -> & R'). eauto. }
  destruct (type_code hdr =? RecAead) eqn:E4.
  { cbn [orb] in Hlen. destruct (F _ Hlen) as (r' & -> & R'). eauto. }
  destruct (type_code hdr =? RecServer) eqn:E6.
  { destruct (type_code hdr =? RecPort) eqn:E7;
      [apply Z.eqb_eq in E6, E7; rewrite E6 in E7; discriminate|].
    cbn [orb] in Hlen. destruct (F _ Hlen) as (r' & -> & R'). eauto. }
  destruct (type_code hdr =? RecPort) eqn:E7.
  { cbn [orb] in Hlen. destruct (F _ Hlen) as (r' & -> & R'). eauto. }
  cbn [orb] in Hlen. destruct K as [K|K].
  { exfalso. unfold handled in K. simpl in K.
    apply Z.eqb_neq in E0, E1, E4, E5, E6, E7. intuition congruence. }
  rewrite K. destruct (F _ Hlen) as (r' & -> & R'). eauto.
Qed.

Lemma Read_short_body_witness :
  let hdr := [x00; x06; x00; x0b] in
  let conn := [[x00; x06]; [x00; x0b; x31; x39; x32]; [x2e]] in
  length hdr = 4%nat /\
  concat conn = hdr ++ [x31; x39; x32; x2e] /\
  type_code hdr <> RecEom /\
  type_code hdr <> RecCookie /\
  (In (type_code hdr) handled \/ hasBit (header_type hdr) 15 = false) /\
  (length [x31; x39; x32; x2e] < body_need hdr)%nat /\
  exists r',
    Read (NewReader conn) Data0 = Some (Some ErrBufferOverrun, Data0, r') /\
    remaining r' = [].
Proof.
  cbv zeta.
  assert (T0 : type_code [x00; x06; x00; x0b] <> RecEom)
    by (vm_compute; discriminate).
  assert (T5 : type_code [x00; x06; x00; x0b] <> RecCookie)
    by (vm_compute; discriminate).
  assert (K : In (type_code [x00; x06; x00; x0b]) handled \/
              hasBit (header_type [x00; x06; x00; x0b]) 15 = false)
    by (right; reflexivity).
  assert (N : (length [x31; x39; x32; x2e]
               < body_need [x00; x06; x00; x0b])%nat)
    by (vm_compute; lia).
  repeat (split; [first [reflexivity|assumption]|]).
  exact (Read_short_body [[x00; x06]; [x00; x0b; x31; x39; x32]; [x2e]]
           [x00; x06; x00; x0b] [x31; x39; x32; x2e] Data0
           eq_refl eq_refl T0 T5 K N).
Defined.

(** ** Headers that end the loop *)

(** X10.  The Warning and Error records the package can send are not
    taken in by its own [Read]: the switch has no case for their type
    codes and they are sent with the critical bit, so [Read] returns
    the unknown-record error with type code 3 or 2, before the code of
    the warning or error has been read. *)
Theorem Read_rejects_Warning_and_Error
  (conn : list (list byte)) (rec : Record_) (rest : list byte) (d : Data) :
  record_type rec = RecWarning \/ record_type rec = RecError ->
  concat conn = wire [rec] ++ rest ->
  exists r',
    Read (NewReader conn) d =
      Some (Some (ErrUnknownRecord (record_type rec)), d, r') /\
    remaining r' = payload rec ++ rest.
Proof.
  intros T E. rewrite wire_split, <- app_assoc in E.
  destruct (wire_header rec) as (L & _ & T1 & C1 & _). cbv zeta in *.
  destruct (binary_Read_ok 4 (NewReader conn) _ _ E L) as (r1 & B & R).
  exists r1. split; [|exact R].
  rewrite Read_unfold.
  rewrite (Read_turn_default _ r1 d _ B).
  - rewrite C1, T1. destruct rec; cbn in T; destruct T; try discriminate;
      reflexivity.
  - rewrite T1. unfold handled. simpl.
    destruct T as [-> | ->]; intuition discriminate.
Qed.

Lemma Read_rejects_Warning_and_Error_witness :
  (record_type (Warning 1) = RecWarning \/
   record_type (Warning 1) = RecError) /\
  concat [wire [Warning 1; End_]] = wire [Warning 1] ++ wire [End_] /\
  exists r',
    Read (NewReader [wire [Warning 1; End_]]) Data0 =
      Some (Some (ErrUnknownRecord (record_type (Warning 1))), Data0, r') /\
    remaining r' = payload (Warning 1) ++ wire [End_].
Proof.
  split; [left; reflexivity|]. split; [reflexivity|].
  apply (Read_rejects_Warning_and_Error
           [wire [Warning 1; End_]] (Warning 1) (wire [End_]) Data0);
    [left; reflexivity|reflexivity].
Defined.

(** X11.  A header of type code End of Message ends the loop whatever
    its critical bit and whatever body length it declares: [Read]
    returns [nil] with the data as it was, and takes nothing after the
    four bytes of the header. *)
Theorem Read_End_header
  (conn : list (list byte)) (hdr rest : list byte) (d : Data) :
  length hdr = 4%nat ->
  type_code hdr = RecEom ->
  concat conn = hdr ++ rest ->
  exists r',
    Read (NewReader conn) d = Some (None, d, r') /\ remaining r' = rest.
Proof.
  intros L T E.
  destruct (binary_Read_ok 4 (NewReader conn) hdr rest E L) as (r1 & B & R).
  exists r1. split; [|exact R].
  rewrite Read_unfold, (Read_turn_eom _ r1 d hdr B T). reflexivity.
Qed.

Lemma Read_End_header_witness :
  let hdr := [x00; x00; x00; x05] in
  length hdr = 4%nat /\
  type_code hdr = RecEom /\
  concat [[x00; x00; x00]; [x05; xaa]] = hdr ++ [xaa] /\
  exists r',
    Read (NewReader [[x00; x00; x00]; [x05; xaa]]) Data0 =
      Some (None, Data0, r') /\
    remaining r' = [xaa].
Proof.
  repeat (split; [reflexivity|]).
  exact (Read_End_header [[x00; x00; x00]; [x05; xaa]] [x00; x00; x00; x05]
           [xaa] Data0 eq_refl eq_refl eq_refl).
Defined.

(** ** The last record of a type wins *)

Lemma decode_app (m1 m2 : list Record_) (d : Data) :
  decode (m1 ++ m2) d = decode m2 (decode m1 d).
Proof. apply fold_left_app. Qed.

Lemma decode_keeps (m : list Record_) :
  forall d,
    (Forall (fun r => record_type r <> RecServer) m ->
     Server (decode m d) = Server d) /\
    (Forall (fun r => record_type r <> RecPort) m ->
     Port (decode m d) = Port d) /\
    (Forall (fun r => record_type r <> RecAead) m ->
     Algo (decode m d) = Algo d).
Proof.
  induction m as [|r m IH]; intros d; [auto|].
  cbn [decode fold_left]. fold (decode m (apply_record r d)).
  destruct (IH (apply_record r d)) as (I1 & I2 & I3).
  repeat split; intros F; inversion F as [|? ? F1 F2]; subst.
  - rewrite (I1 F2).
    destruct r as [| | | | | | |[|a [|]]]; try reflexivity;
      exfalso; apply F1; reflexivity.
  - rewrite (I2 F2).
    destruct r as [| | | | | | |[|a [|]]]; try reflexivity;
      exfalso; apply F1; reflexivity.
  - rewrite (I3 F2).
    destruct r as [| | | | | | |[|a [|]]]; try reflexivity;
      exfalso; apply F1; reflexivity.
Qed.

(** X12.  Last write wins.  In a message that is read back, cut up by
    the connection in any way, a Server, Port or AEAD record that no
    record of the same type follows decides the field: the server is
    its address, the port its port, the algorithm its algorithm,
    whatever records of that type came before it. *)
Theorem Read_last_record_wins
  (conn : list (list byte)) (m1 m2 : list Record_) (rec : Record_)
  (tail : list byte) (d : Data) :
  Forall decodable (m1 ++ rec :: m2) ->
  Forall (fun r => is_Cookie r = false) (m1 ++ rec :: m2) ->
  Forall (fun r => record_type r <> record_type rec) m2 ->
  concat conn = wire ((m1 ++ rec :: m2) ++ [End_]) ++ tail ->
  exists d' r',
    Read (NewReader conn) d = Some (None, d', r') /\
    match rec with
    | Server_ addr _ => Server d' = string_of_list_byte addr
    | Port_ p _ => Port d' = p
    | Algorithm [a] => Algo d' = a
    | _ => True
    end.
Proof.
  intros D C F E.
  destruct (Read_Pack_any conn _ tail d D C E) as (r' & R & _).
  exists (decode (m1 ++ rec :: m2) d), r'. split; [exact R|].
  rewrite decode_app. cbn [decode fold_left].
  fold (decode m2 (apply_record rec (decode m1 d))).
  destruct (decode_keeps m2 (apply_record rec (decode m1 d)))
    as (K1 & K2 & K3).
  destruct rec as [| | | | | | |[|a [|]]]; try exact I;
    cbn [record_type] in F.
  - rewrite (K1 F). reflexivity.
  - rewrite (K2 F). reflexivity.
  - rewrite (K3 F). reflexivity.
Qed.

Lemma Read_last_record_wins_witness :
  let m1 := [Server_ (list_byte_of_string "192.0.2.1") false; Port_ 1 false] in
  let rec := Server_ (list_byte_of_string "ntp.example") false in
  let m2 := [Port_ 4123 false] in
  Forall decodable (m1 ++ rec :: m2) /\
  Forall (fun r => is_Cookie r = false) (m1 ++ rec :: m2) /\
  Forall (fun r => record_type r <> record_type rec) m2 /\
  concat [wire ((m1 ++ rec :: m2) ++ [End_])] =
    wire ((m1 ++ rec :: m2) ++ [End_]) ++ [] /\
  exists d' r',
    Read (NewReader [wire ((m1 ++ rec :: m2) ++ [End_])]) Data0 =
      Some (None, d', r') /\
    Server d' = string_of_list_byte (list_byte_of_string "ntp.example").
Proof.
  cbv zeta.
  assert (D : Forall decodable
                ([Server_ (list_byte_of_string "192.0.2.1") false;
                  Port_ 1 false] ++
                 Server_ (list_byte_of_string "ntp.example") false ::
                 [Port_ 4123 false]))
    by (repeat constructor; simpl; lia).
  assert (C : Forall (fun r => is_Cookie r = false)
                ([Server_ (list_byte_of_string "192.0.2.1") false;
                  Port_ 1 false] ++
                 Server_ (list_byte_of_string "ntp.example") false ::
                 [Port_ 4123 false]))
    by (repeat constructor).
  assert (F : Forall (fun r => record_type r <>
                        record_type
                          (Server_ (list_byte_of_string "ntp.example") false))
                [Port_ 4123 false])
    by (repeat constructor; discriminate).
  split; [exact D|]. split; [exact C|]. split; [exact F|].
  split; [reflexivity|].
  apply (Read_last_record_wins
           [wire (([Server_ (list_byte_of_string "192.0.2.1") false;
                    Port_ 1 false] ++
                   Server_ (list_byte_of_string "ntp.example") false ::
                   [Port_ 4123 false]) ++ [End_])]
           _ _ _ [] Data0 D C F).
  reflexivity.
Defined.

(** ** Keys, listener, dialing, exchange *)

(** X13.  [ExportKeys] returns [nil] exactly when both exports succeed,
    and then the server-to-client key is what the exporter gave for the
    context ending in 01 and the client-to-server key what it gave for
    the context ending in 00, both asked for with the NTS label and 32
    bytes; the two contexts differ; server, port, cookies and algorithm
    are never touched, whatever the exports return. *)
Theorem ExportKeys_success (cs : ConnectionState) (d : Data) :
  let r1 := ExportKeyingMaterial cs "EXPORTER-network-time-security"
              [x00; x00; x00; x0f; x01] 32 in
  let r2 := ExportKeyingMaterial cs "EXPORTER-network-time-security"
              [x00; x00; x00; x0f; x00] 32 in
  let d' := snd (ExportKeys cs d) in
  (fst (ExportKeys cs d) = None <-> snd r1 = None /\ snd r2 = None) /\
  (fst (ExportKeys cs d) = None ->
   S2cKey d' = fst r1 /\ C2sKey d' = fst r2) /\
  s2cContext <> c2sContext /\
  Server d' = Server d /\ Port d' = Port d /\
  Cookie d' = Cookie d /\ Algo d' = Algo d.
Proof.
  cbv zeta. unfold ExportKeys.
  change (ExportKeyingMaterial cs label s2cContext 32)
    with (ExportKeyingMaterial cs "EXPORTER-network-time-security"
            [x00; x00; x00; x0f; x01] 32).
  change (ExportKeyingMaterial cs label c2sContext 32)
    with (ExportKeyingMaterial cs "EXPORTER-network-time-security"
            [x00; x00; x00; x0f; x00] 32).
  destruct (ExportKeyingMaterial cs "EXPORTER-network-time-security"
              [x00; x00; x00; x0f; x01] 32) as [k1 [e1|]];
    destruct (ExportKeyingMaterial cs "EXPORTER-network-time-security"
                [x00; x00; x00; x0f; x00] 32) as [k2 [e2|]];
    simpl; repeat split; auto; try discriminate;
    try (intros [? ?]; discriminate); intros ?; discriminate.
Qed.

(** X14.  [NewTCPListener] returns a connection exactly when [Accept]
    returned a TLS connection, and then that one; when [Accept] fails
    or hands out a connection that is not TLS it returns an error. *)
Theorem NewTCPListener_result (listener : Listener) (c : tlsConn) :
  (NewTCPListener listener = inr c <-> Accept listener = inr (IsTLS c)) /\
  ((forall c', Accept listener <> inr (IsTLS c')) ->
   exists msg, NewTCPListener listener = inl (ErrOther msg)).
Proof.
  unfold NewTCPListener. destruct (Accept listener) as [e|[c'|]].
  - split; [split; discriminate|]. eauto.
  - split; [split; intros H; injection H as ->; reflexivity|].
    intros H. exfalso. apply (H c'). reflexivity.
  - split; [split; discriminate|]. eauto.
Qed.

Section Dial_properties.

Variable SplitHostPort : string -> string + string * string.
Variable JoinHostPort : string -> string -> string.
Variable DialWithDialer : string -> string -> Config -> error + tlsConn.

(** X15.  When [ConnectTCP] returns a connection, it is one that
    negotiated "ntske/1", obtained from the dialer with the
    configuration whose only protocol is "ntske/1", and the data it
    returns is fresh: the server is the host of the remote address of
    the connection, the port is 123, there are no keys, no cookies and
    no algorithm. *)
Theorem ConnectTCP_success
  (hostport : string) (config : Config) (conn : tlsConn) (data : Data) :
  snd (ConnectTCP SplitHostPort JoinHostPort DialWithDialer hostport config)
    = inr (conn, data) ->
  NegotiatedProtocol (ConnectionState_ conn) = "ntske/1"%string /\
  (exists address,
      DialWithDialer "tcp" address (set_NextProtos config ["ntske/1"%string])
      = inr conn) /\
  (exists host port,
      SplitHostPort (RemoteAddr conn) = inr (host, port) /\
      data = mkData None None host 123 [] 0).
Proof.
  unfold ConnectTCP. cbn [snd]. unfold bind.
  destruct (SplitHostPort hostport) as [err|hp].
  - destruct (negb (Contains err "missing port in address"));
      [discriminate|].
    destruct (DialWithDialer "tcp" _ _) as [e|c] eqn:Dl; [discriminate|].
    destruct (SplitHostPort (RemoteAddr c)) as [e|[host port]] eqn:Sp;
      [discriminate|].
    destruct (NegotiatedProtocol (ConnectionState_ c) =? alpn)%string eqn:N;
      [|discriminate].
    cbn [negb]. intros H. injection H as <- <-.
    apply String.eqb_eq in N. repeat split; eauto.
  - destruct (DialWithDialer "tcp" _ _) as [e|c] eqn:Dl; [discriminate|].
    destruct (SplitHostPort (RemoteAddr c)) as [e|[host port]] eqn:Sp;
      [discriminate|].
    destruct (NegotiatedProtocol (ConnectionState_ c) =? alpn)%string eqn:N;
      [|discriminate].
    cbn [negb]. intros H. injection H as <- <-.
    apply String.eqb_eq in N. repeat split; eauto.
Qed.

(** X16.  The address [ConnectTCP] dials.  An address that
    [net.SplitHostPort] accepts is dialed as it is; one it refuses with
    "missing port in address" is dialed with port 4460 joined to it;
    one it refuses for another reason is not dialed, and the error is
    returned.  The network is "tcp" and the configuration is the one of
    the caller with "ntske/1" as its only protocol: a dialer that
    answers the same for this one call gives the same outcome. *)
Theorem ConnectTCP_dials
  (Dial' : string -> string -> Config -> error + tlsConn)
  (hostport : string) (config : Config) :
  let address :=
    match SplitHostPort hostport with
    | inr _ => hostport
    | inl _ => JoinHostPort hostport "4460"
    end in
  let config' := set_NextProtos config ["ntske/1"%string] in
  DialWithDialer "tcp"%string address config' =
    Dial' "tcp"%string address config' ->
  ConnectTCP SplitHostPort JoinHostPort DialWithDialer hostport config =
  ConnectTCP SplitHostPort JoinHostPort Dial' hostport config /\
  (forall err,
      SplitHostPort hostport = inl err ->
      Contains err "missing port in address" = false ->
      forall Dial'',
        ConnectTCP SplitHostPort JoinHostPort Dial'' hostport config =
        (config', inl (ErrOther err))).
Proof.
  cbv zeta. intros H. unfold ConnectTCP. split.
  - destruct (SplitHostPort hostport) as [err|hp].
    + destruct (negb (Contains err "missing port in address"));
        [reflexivity|]. unfold bind at 1 3. unfold alpn in *.
      rewrite H. reflexivity.
    + unfold bind at 1 3. unfold alpn in *. rewrite H. reflexivity.
  - intros err -> C Dial''. rewrite C. reflexivity.
Qed.

End Dial_properties.

Lemma ConnectTCP_success_witness :
  let split := fun s : string =>
    if (s =? "ke.example")%string
    then inl "address ke.example: missing port in address"%string
    else inr ("192.0.2.7"%string, "4460"%string) in
  let join := fun h p : string => (h ++ ":" ++ p)%string in
  let conn := mkConn "192.0.2.7:4460" half_exporter in
  let dial := fun (_ _ : string) (_ : Config) => @inr error tlsConn conn in
  let config := mkConfig ["h2"%string] "ke.example" false in
  snd (ConnectTCP split join dial "ke.example" config)
    = inr (conn, mkData None None "192.0.2.7" 123 [] 0) /\
  NegotiatedProtocol (ConnectionState_ conn) = "ntske/1"%string /\
  (exists address,
      dial "tcp"%string address (set_NextProtos config ["ntske/1"%string])
      = inr conn) /\
  (exists host port,
      split (RemoteAddr conn) = inr (host, port) /\
      mkData None None "192.0.2.7" 123 [] 0 = mkData None None host 123 [] 0).
Proof.
  cbv zeta. split; [reflexivity|].
  apply (ConnectTCP_success
           (fun s : string =>
              if (s =? "ke.example")%string
              then inl "address ke.example: missing port in address"%string
              else inr ("192.0.2.7"%string, "4460"%string))
           (fun h p : string => (h ++ ":" ++ p)%string)
           (fun (_ _ : string) (_ : Config) =>
              @inr error tlsConn (mkConn "192.0.2.7:4460" half_exporter))
           "ke.example" (mkConfig ["h2"%string] "ke.example" false)).
  reflexivity.
Defined.

Lemma ConnectTCP_dials_witness :
  let split := fun _ : string =>
    @inl string (string * string)
         "address ke.example: missing port in address"%string in
  let join := fun h p : string => (h ++ ":" ++ p)%string in
  let dial := fun (_ a : string) (_ : Config) =>
    @inl error tlsConn (ErrOther a) in
  let dial' := fun (_ a : string) (_ : Config) =>
    if (a =? "ke.example:4460")%string
    then @inl error tlsConn (ErrOther a)
    else inr (mkConn a half_exporter) in
  let config := mkConfig [] "ke.example" false in
  dial "tcp"%string (join "ke.example" "4460")%string
       (set_NextProtos config ["ntske/1"%string]) =
  dial' "tcp"%string (join "ke.example" "4460")%string
        (set_NextProtos config ["ntske/1"%string]) /\
  ConnectTCP split join dial "ke.example" config =
  ConnectTCP split join dial' "ke.example" config.
Proof.
  cbv zeta. split; [reflexivity|].
  exact (proj1
           (ConnectTCP_dials
              (fun _ : string =>
                 @inl string (string * string)
                      "address ke.example: missing port in address"%string)
              (fun h p : string => (h ++ ":" ++ p)%string)
              (fun (_ a : string) (_ : Config) =>
                 @inl error tlsConn (ErrOther a))
              (fun (_ a : string) (_ : Config) =>
                 if (a =? "ke.example:4460")%string
                 then @inl error tlsConn (ErrOther a)
                 else inr (mkConn a half_exporter))
              "ke.example" (mkConfig [] "ke.example" false) eq_refl)).
Defined.

(** X17.  The exchange of the client, when the connection takes the
    request and the reply comes in one delivery of at most 4096 bytes,
    made of records that [Read] has a case for and the End record:
    [ExchangeTCP] writes the sixteen bytes of NextProtocol(0), the AEAD
    list [0x0f] and End, and returns [nil] with the data as the records
    of the reply make it.  When the connection refuses the request,
    [ExchangeTCP] returns that error and the data is as it was. *)
Theorem ExchangeTCP_reply
  (Write : list byte -> option error)
  (m : list Record_) (tail : list byte) (src : list (list byte)) (d : Data) :
  Forall decodable m ->
  Z.of_nat (length (wire (m ++ [End_]) ++ tail)) <= 4096 ->
  let request := [x80; x01; x00; x02; x00; x00;
                  x80; x04; x00; x02; x00; x0f;
                  x80; x00; x00; x00] in
  let conn := (wire (m ++ [End_]) ++ tail) :: src in
  (Write request = None ->
   ExchangeTCP Write conn d = Some (None, decode m d)) /\
  (forall e, Write request = Some e ->
             ExchangeTCP Write conn d = Some (Some e, d)).
Proof.
  intros D L. cbv zeta. unfold ExchangeTCP.
  change (Pack ExchangeTCP_msg)
    with (@inr error Buffer [x80; x01; x00; x02; x00; x00;
                             x80; x04; x00; x02; x00; x0f;
                             x80; x00; x00; x00]).
  cbv iota. split.
  - intros ->. rewrite (Read_Pack_one m tail src d D L). reflexivity.
  - intros e ->. reflexivity.
Qed.

Lemma ExchangeTCP_reply_witness :
  let m := [NextProto 0; Algorithm [15]; Cookie_ [xaa; xbb];
            Cookie_ [xcc]] in
  let Write := fun _ : list byte => @None error in
  let request := [x80; x01; x00; x02; x00; x00;
                  x80; x04; x00; x02; x00; x0f;
                  x80; x00; x00; x00] in
  Forall decodable m /\
  Z.of_nat (length (wire (m ++ [End_]) ++ [])) <= 4096 /\
  Write request = None /\
  ExchangeTCP Write [wire (m ++ [End_]) ++ []] Data0 =
    Some (None, decode m Data0).
Proof.
  cbv zeta.
  assert (D : Forall decodable
                [NextProto 0; Algorithm [15]; Cookie_ [xaa; xbb];
                 Cookie_ [xcc]])
    by (repeat constructor; simpl; lia).
  assert (L : Z.of_nat (length (wire ([NextProto 0; Algorithm [15];
                                       Cookie_ [xaa; xbb]; Cookie_ [xcc]]
                                      ++ [End_]) ++ [])) <= 4096)
    by (vm_compute; discriminate).
  split; [exact D|]. split; [exact L|]. split; [reflexivity|].
  apply (ExchangeTCP_reply (fun _ => None) _ [] [] Data0 D L). reflexivity.
Defined.
